(** * Historical candle downloader: pagination, normalisation, aggregation

    A shallow embedding of the two downloader scripts [app.py] (adaptive
    stop, one Excel sheet per symbol) and [app2.py] (fixed horizon, one long
    CSV table), together with the properties of their backward pagination
    loops, of the per-symbol normaliser and of the result sink. *)

From Stdlib Require Import ZArith NArith Lia Bool Ascii String List.
From Stdlib Require Import QArith.QArith_base.
From stdpp Require Import base tactics numbers list sorting strings.

Local Open Scope Z_scope.

(** ** The calendar of [datetime]

    Both scripts compute with [datetime] values: [datetime.now()],
    [datetime(2010, 1, 1)], subtraction of [timedelta(days=...)], the [.year]
    attribute, comparisons and [strftime("%Y-%m-%d")].  The definitions below
    follow the standard library's proleptic Gregorian ordinal arithmetic
    ([_days_before_year], [_ymd2ord], [_ord2ymd]). *)

Module Calendar.

Definition is_leap (year : Z) : bool :=
  (year mod 4 =? 0) && (negb (year mod 100 =? 0) || (year mod 400 =? 0)).

Definition days_before_year (year : Z) : Z :=
  let y := year - 1 in
  y * 365 + y / 4 - y / 100 + y / 400.

Definition DAYS_IN_MONTH (month : Z) : Z :=
  match month with
  | 1 => 31 | 2 => 28 | 3 => 31 | 4 => 30 | 5 => 31 | 6 => 30
  | 7 => 31 | 8 => 31 | 9 => 30 | 10 => 31 | 11 => 30 | 12 => 31
  | _ => -1
  end.

Definition DAYS_BEFORE_MONTH (month : Z) : Z :=
  match month with
  | 1 => 0 | 2 => 31 | 3 => 59 | 4 => 90 | 5 => 120 | 6 => 151
  | 7 => 181 | 8 => 212 | 9 => 243 | 10 => 273 | 11 => 304 | 12 => 334
  | _ => -1
  end.

Definition days_before_month (year month : Z) : Z :=
  DAYS_BEFORE_MONTH month + (if (2 <? month) && is_leap year then 1 else 0).

Definition ymd2ord (year month day : Z) : Z :=
  days_before_year year + days_before_month year month + day.

Definition DI400Y : Z := 146097.
Definition DI100Y : Z := 36524.
Definition DI4Y : Z := 1461.

(** [_ord2ymd]: ordinal to (year, month, day), 0001-01-01 being day 1. *)
Definition ord2ymd (ordinal : Z) : Z * Z * Z :=
  let n := ordinal - 1 in
  let n400 := n / DI400Y in
  let n := n mod DI400Y in
  let year := n400 * 400 + 1 in
  let n100 := n / DI100Y in
  let n := n mod DI100Y in
  let n4 := n / DI4Y in
  let n := n mod DI4Y in
  let n1 := n / 365 in
  let n := n mod 365 in
  let year := year + (n100 * 100 + n4 * 4 + n1) in
  if (n1 =? 4) || (n100 =? 4) then (year - 1, 12, 31)
  else
    let leapyear := (n1 =? 3) && (negb (n4 =? 24) || (n100 =? 3)) in
    let month := Z.shiftr (n + 50) 5 in
    let preceding :=
      DAYS_BEFORE_MONTH month + (if (2 <? month) && leapyear then 1 else 0) in
    if n <? preceding then
      let month := month - 1 in
      let preceding :=
        preceding
        - (DAYS_IN_MONTH month + (if (month =? 2) && leapyear then 1 else 0)) in
      (year, month, n - preceding + 1)
    else (year, month, n - preceding + 1).

Definition year_of_ordinal (ordinal : Z) : Z := fst (fst (ord2ymd ordinal)).

End Calendar.

(** ** Python values shared by the two scripts *)

(** Exceptions (instances of [Exception]) and computations that may raise. *)
Inductive exn : Type :=
| ApiException (status : Z)
| AttributeError
| OtherException (name : string).

Inductive py (A : Type) : Type :=
| Ok (a : A)
| Raise (e : exn).
Arguments Ok {A} a.
Arguments Raise {A} e.

#[global] Instance py_ret : MRet py := fun A a => Ok a.

#[global] Instance py_bind : MBind py := fun A B k m =>
  match m with
  | Ok a => k a
  | Raise e => Raise e
  end.

(** [try: body except Exception as e: handler]. *)
Definition try_except {A : Type} (body : py A) (handler : exn -> py A) : py A :=
  match body with
  | Ok a => Ok a
  | Raise e => handler e
  end.

(** A naive [datetime]: the proleptic Gregorian ordinal of its date and the
    time of day in microseconds since midnight (hour, minute, second and
    microsecond in one number). *)
Record datetime : Type := mk_datetime { toordinal : Z; time_of_day : N }.

(** [datetime(year, month, day)]: midnight of that date. *)
Definition datetime_ymd (year month day : Z) : datetime :=
  {| toordinal := Calendar.ymd2ord year month day; time_of_day := 0 |}.

(** [d.year] *)
Definition year (d : datetime) : Z := Calendar.year_of_ordinal (toordinal d).

(** [d - timedelta(days=days)] *)
Definition sub_days (d : datetime) (days : Z) : datetime :=
  {| toordinal := toordinal d - days; time_of_day := time_of_day d |}.

(** [a < b] and [a <= b] on datetimes: by date, then by time of day. *)
Definition dt_ltb (a b : datetime) : bool :=
  (toordinal a <? toordinal b)
  || ((toordinal a =? toordinal b) && (time_of_day a <? time_of_day b)%N).

Definition dt_leb (a b : datetime) : bool :=
  (toordinal a <? toordinal b)
  || ((toordinal a =? toordinal b) && (time_of_day a <=? time_of_day b)%N).

Definition dt_le (a b : datetime) : Prop :=
  toordinal a < toordinal b
  \/ (toordinal a = toordinal b /\ (time_of_day a <= time_of_day b)%N).

(** [max(a, b)]: the first argument unless the second is greater. *)
Definition dt_max (a b : datetime) : datetime := if dt_ltb a b then b else a.

(** What [strftime("%Y-%m-%d")] renders: the calendar date, without the time
    of day. *)
Record ymd : Type := mk_ymd { ymd_year : Z; ymd_month : Z; ymd_day : Z }.

Definition strftime_Ymd (d : datetime) : ymd :=
  let '(y, m, dd) := Calendar.ord2ymd (toordinal d) in
  {| ymd_year := y; ymd_month := m; ymd_day := dd |}.

(** One candle as the API delivers it: timestamp, open, high, low, close,
    volume, open interest.  The timestamp text carries a UTC offset; it is
    kept here as the wall-clock datetime it denotes and the offset in
    minutes. *)
Record raw_candle : Type := mk_raw {
  raw_wall : datetime;
  raw_utcoffset : Z;
  raw_open : Q; raw_high : Q; raw_low : Q; raw_close : Q;
  raw_volume : Z; raw_open_interest : Z
}.

(** An attribute that an object may lack. *)
Inductive attr (A : Type) : Type :=
| Absent
| Present (a : A).
Arguments Absent {A}.
Arguments Present {A} a.

(** [getattr(obj, name, default)] for one attribute. *)
Definition getattr {A : Type} (a : attr A) (default : A) : A :=
  match a with
  | Absent => default
  | Present v => v
  end.

(** The response of the history endpoint, as far as [fetch_chunk] reads it:
    [response.data] (reading it raises [AttributeError] when missing) and
    [response.data.candles], which may be missing, [None] or a list. *)
Record response_data : Type := { candles : attr (option (list raw_candle)) }.
Record api_response : Type := { data : attr response_data }.

Definition get_data (response : api_response) : py response_data :=
  match data response with
  | Absent => Raise AttributeError
  | Present d => Ok d
  end.

(** The remote API client, a black box: a call answers with a response or
    raises, and may change the state of the client and of the service. *)
Class HistoryV3Api (Api : Type) : Type := {
  get_historical_candle_data1 :
    Api -> string -> string -> string -> ymd -> ymd -> py api_response * Api
}.

Definition EXCHANGE_PREFIX : string := "NSE_EQ|".
Definition INTERVAL_UNIT : string := "days".
Definition INTERVAL_VALUE : string := "1".
Definition MAX_WORKERS : Z := 4.
Definition CHUNK_SIZE_DAYS : Z := 365 * 3.

(** [str.isspace] on one character (code points below 256). *)
Definition is_space (c : ascii) : bool :=
  let n := N_of_ascii c in
  ((9 <=? n) && (n <=? 13) || (28 <=? n) && (n <=? 32) || (n =? 133) || (n =? 160))%N.

Fixpoint lstrip (s : string) : string :=
  match s with
  | EmptyString => EmptyString
  | String c rest => if is_space c then lstrip rest else s
  end.

Fixpoint rstrip (s : string) : string :=
  match s with
  | EmptyString => EmptyString
  | String c rest =>
    match rstrip rest with
    | EmptyString => if is_space c then EmptyString else String c EmptyString
    | rest' => String c rest'
    end
  end.

(** [s.strip()] *)
Definition strip (s : string) : string := rstrip (lstrip s).

(** [get_instrument_key(isin)], the same in both scripts; [isin] is taken
    as the text [str(isin)]. *)
Definition get_instrument_key (isin : string) : string :=
  EXCHANGE_PREFIX +:+ strip isin.

(** [fetch_chunk(api, instrument_key, start_date, end_date)], the same in
    both scripts; the second component is the client after the call. *)
Definition fetch_chunk {Api : Type} {remote : HistoryV3Api Api} (api : Api)
    (instrument_key : string) (start_date end_date : datetime)
  : py (list raw_candle) * Api :=
  let '(called, api') :=
    get_historical_candle_data1 api instrument_key INTERVAL_UNIT INTERVAL_VALUE
      (strftime_Ymd end_date) (strftime_Ymd start_date) in
  (try_except
     (response ← called;
      d ← get_data response;
      let candles := getattr (candles d) (Some []) in
      Ok (match candles with
          | Some (c :: cs) => c :: cs
          | _ => []
          end))
     (fun e => Ok []),
   api').

(** One call of [fetch_chunk] as the pagination loops log it: the window
    asked for and the candles that came back. *)
Record window : Type := mk_window {
  w_start : datetime;
  w_end : datetime;
  w_candles : list raw_candle
}.

(** The result of a pagination loop: [all_candles] and the log of the
    windows fetched, oldest call first. *)
Definition logged {Api : Type} (w : window)
    (r : option (py (list raw_candle * list window) * Api))
  : option (py (list raw_candle * list window) * Api) :=
  match r with
  | Some (Ok (cs, ws), api) => Some (Ok (cs, w :: ws), api)
  | other => other
  end.

(** ** pandas frames

    A frame is the list of its rows, in row order.  [app.py] indexes its
    frames by [Date]; [app2.py] keeps [Date] as a column and adds [Symbol]. *)

Record row : Type := mk_row {
  Date : datetime;
  Open : Q; High : Q; Low : Q; Close : Q;
  Volume : Z; Open_Interest : Z
}.

Record long_row : Type := mk_long_row { Symbol : string; cells : row }.

(** [pd.DataFrame(all_candles, columns=[...])] followed by the column
    conversions: [pd.to_datetime(...).dt.tz_localize(None)] keeps the wall
    clock and drops the offset; the numeric columns keep their values.
    Cells on which a conversion would raise are not part of the model, nor
    is the rounding of [astype(float)] or the 64-bit range of [astype(int)]:
    what is proved below of the frames built under [# Process Data] is
    about their dates, their symbols and the number of their rows, never
    about their numeric cells. *)
Definition format_row (c : raw_candle) : row :=
  {| Date := raw_wall c;
     Open := raw_open c; High := raw_high c; Low := raw_low c;
     Close := raw_close c;
     Volume := raw_volume c; Open_Interest := raw_open_interest c |}.

#[global] Instance datetime_eq_dec : EqDecision datetime.
Proof. solve_decision. Defined.

#[global] Instance dt_le_dec : RelDecision dt_le.
Proof. intros a b. unfold dt_le. apply _. Defined.

(** [df.sort_values(key)]: ascending by the key.  Which of several rows
    with the same key comes first is not relied upon below. *)
Definition sort_values {A K : Type} (le : relation K) `{!RelDecision le}
    (key : A -> K) (df : list A) : list A :=
  merge_sort (H := fun a b => decide_rel le (key a) (key b))
    (fun a b => le (key a) (key b)) df.

(** [df.drop_duplicates(subset=[key])]: of the rows with the same key the
    first one stays. *)
Fixpoint drop_duplicates_seen {A K : Type} `{!EqDecision K} (key : A -> K)
    (seen : list K) (df : list A) : list A :=
  match df with
  | [] => []
  | r :: rest =>
    if decide (key r ∈ seen) then drop_duplicates_seen key seen rest
    else r :: drop_duplicates_seen key (key r :: seen) rest
  end.

Definition drop_duplicates {A K : Type} `{!EqDecision K} (key : A -> K)
    (df : list A) : list A :=
  drop_duplicates_seen key [] df.

(** Order of [sort_values(['Symbol', 'Date'])]: by symbol, then by date. *)
Definition symbol_date_le (a b : string * datetime) : Prop :=
  (a.1 ≠ b.1 ∧ String.le a.1 b.1) ∨ (a.1 = b.1 ∧ dt_le a.2 b.2).

#[global] Instance symbol_date_le_dec : RelDecision symbol_date_le.
Proof. intros a b. unfold symbol_date_le. apply _. Defined.

(** An insertion-ordered [dict] as the list of its items; [d[k] = v]. *)
Fixpoint dict_set {V : Type} (d : list (string * V)) (k : string) (v : V)
  : list (string * V) :=
  match d with
  | [] => [(k, v)]
  | (k', v') :: rest =>
    if decide (k' = k) then (k', v) :: rest else (k', v') :: dict_set rest k v
  end.

(** [pd.Series(values, index=keys).to_dict()] *)
Definition to_dict {V : Type} (items : list (string * V)) : list (string * V) :=
  foldl (fun d kv => dict_set d kv.1 kv.2) [] items.

(** The smallest and the largest date of a frame that has rows. *)
Definition date_range (dates : list datetime) : option (datetime * datetime) :=
  match dates with
  | [] => None
  | d :: rest =>
    Some (foldl (fun m x => if dt_ltb x m then x else m) d rest,
          foldl (fun m x => if dt_ltb m x then x else m) d rest)
  end.

(** What the scripts print and write. *)
Inductive message : Type :=
| MsgStarting
| MsgInputNotFound (input_file : string)
| MsgFetching (stocks : nat) (workers : Z)
| MsgSettings
| MsgOk (sym : string) (candles : nat) (range : option (datetime * datetime))
| MsgNoData (sym : string)
| MsgError (symbol : string) (e : exn)
| MsgSaving (stocks : nat)
| MsgDone (output : string)
| MsgTotals (rows : nat) (range : option (datetime * datetime)) (stocks : nat)
| MsgNoDataFetched.

Inductive event : Type :=
| Stdout (m : message)
| ToExcel (filename : string) (sheets : list (string * list row))
| ToCsv (filename : string) (table : list long_row).

Definition is_output_file (e : event) : bool :=
  match e with
  | Stdout _ => false
  | ToExcel _ _ | ToCsv _ _ => true
  end.

(** [s.replace(old, new)] for a pattern [old] of one character. *)
Fixpoint replace (old : ascii) (new : string) (s : string) : string :=
  match s with
  | EmptyString => EmptyString
  | String c rest =>
    if Ascii.eqb c old then new +:+ replace old new rest
    else String c (replace old new rest)
  end.

(** [s[:n]] *)
Definition slice_to (n : nat) (s : string) : string := String.substring 0 n s.

(** [if not df.empty: ... else: ...] over the result of one future, as both
    main loops do it: [keep] stores a frame that has rows. *)
Definition on_completed {R Acc : Type} (keep : Acc -> string -> list R -> Acc)
    (dates : list R -> list datetime)
    (st : Acc * list event) (done : string * py (string * list R))
  : Acc * list event :=
  let '(acc, out) := st in
  let '(symbol, result) := done in
  match result with
  | Ok (sym, df) =>
    match df with
    | _ :: _ =>
      (keep acc sym df,
       out ++ [Stdout (MsgOk sym (length df) (date_range (dates df)))])
    | [] => (acc, out ++ [Stdout (MsgNoData sym)])
    end
  | Raise e => (acc, out ++ [Stdout (MsgError symbol e)])
  end.

(** ** [app.py]: adaptive stop, one sheet per symbol *)

Module App.

Definition INPUT_FILE : string := "Stock.csv".
Definition OUTPUT_FILENAME : string := "Stock_Candle_Data_Final.xlsx".
Definition STOP_YEAR : Z := 2000.

(** The [while] loop of [process_single_stock].  [fuel] bounds the number of
    times the loop condition is evaluated; [None] means the bound was hit.
    The pause [time.sleep(0.5)] after a window changes no value and is left
    out. *)
Fixpoint while_loop {Api : Type} {remote : HistoryV3Api Api} (fuel : nat) (api : Api)
    (instrument_key : string) (current_end : datetime)
    (all_candles : list raw_candle)
  : option (py (list raw_candle * list window) * Api) :=
  match fuel with
  | O => None
  | S fuel' =>
    if STOP_YEAR <=? year current_end then
      let current_start := sub_days current_end CHUNK_SIZE_DAYS in
      let '(fetched, api) :=
        fetch_chunk api instrument_key current_start current_end in
      match fetched with
      | Raise e => Some (Raise e, api)
      | Ok chunk_candles =>
        let w := mk_window current_start current_end chunk_candles in
        match chunk_candles with
        | _ :: _ =>
          logged w
            (while_loop fuel' api instrument_key current_start
               (all_candles ++ chunk_candles))
        | [] =>
          if year current_end <? 2010 then Some (Ok (all_candles, [w]), api)
          else
            logged w
              (while_loop fuel' api instrument_key current_start all_candles)
        end
      end
    else Some (Ok (all_candles, []), api)
  end.

(** The part of [process_single_stock] under [# Process Data]. *)
Definition process_data (symbol : string) (all_candles : list raw_candle)
  : string * list row :=
  match all_candles with
  | _ :: _ =>
    let df := map format_row all_candles in
    (symbol, drop_duplicates Date (sort_values dt_le Date df))
  | [] => (symbol, [])
  end.

(** [process_single_stock(symbol, isin)]; [api] is the client the function
    creates for itself and [END_DATE] the module's [datetime.now()]. *)
Definition process_single_stock {Api : Type} {remote : HistoryV3Api Api} (fuel : nat)
    (END_DATE : datetime) (api : Api) (symbol isin : string)
  : option (py (string * list row)) :=
  let instrument_key := get_instrument_key isin in
  match while_loop fuel api instrument_key END_DATE [] with
  | None => None
  | Some (Raise e, _) => Some (Raise e)
  | Some (Ok (all_candles, _), _) => Some (Ok (process_data symbol all_candles))
  end.

(** [symbol.replace('|', '').replace(':', '').replace('/', '')[:30]] *)
Definition safe_name (symbol : string) : string :=
  slice_to 30 (replace "/" "" (replace ":" "" (replace "|" "" symbol))).

(** The part of the main block under [# Save to Excel], with a writer
    that accepts every sheet: what the workbook writer does with a title it
    refuses, or with a title it has already been given, is not modelled, and
    the properties below use [save] only for an empty [final_results]. *)
Definition save (final_results : list (string * list row)) : list event :=
  match final_results with
  | _ :: _ =>
    [Stdout (MsgSaving (length final_results));
     ToExcel OUTPUT_FILENAME
       (map (fun item => (safe_name item.1, item.2)) final_results);
     Stdout (MsgDone OUTPUT_FILENAME)]
  | [] => [Stdout MsgNoDataFetched]
  end.

(** The loop over [as_completed(futures)] and the save that follows it;
    [completed] lists each future's symbol and result in completion order. *)
Definition finish (completed : list (string * py (string * list row)))
  : list event :=
  let '(final_results, progress) :=
    foldl (on_completed (fun d sym df => dict_set d sym df) (map Date))
      ([], []) completed in
  progress ++ save final_results.

(** The main block.  [input_exists] is [os.path.exists(INPUT_FILE)],
    [stock_df] the rows of the roster as (symbol, isin), [client] the API
    client each task creates, [order] the positions in [stock_map] of the
    submitted tasks in the order in which their futures complete (a
    permutation of the positions; the pool runs at most [MAX_WORKERS] of
    them at a time, each on a client of its own). *)
Definition main {Api : Type} {remote : HistoryV3Api Api} (fuel : nat)
    (END_DATE : datetime) (input_exists : bool)
    (stock_df : list (string * string)) (client : string -> Api)
    (order : list nat) : option (list event) :=
  if negb input_exists then
    Some [Stdout MsgStarting; Stdout (MsgInputNotFound INPUT_FILE)]
  else
    let stock_map := to_dict stock_df in
    completed ← mapM (fun item =>
        result ← process_single_stock fuel END_DATE (client item.1) item.1 item.2;
        Some (item.1, result)) (omap (fun i => stock_map !! i) order);
    Some ([Stdout MsgStarting;
           Stdout (MsgFetching (length stock_map) MAX_WORKERS);
           Stdout MsgSettings]
          ++ finish completed).

End App.

(** ** [app2.py]: fixed horizon, one long table *)

Module App2.

Definition INPUT_FILE : string := "Stock.csv".
Definition OUTPUT_FILENAME : string := "Stock_Candle_Data_Final.csv".
Definition START_DATE : datetime := datetime_ymd 2010 1 1.

(** The [while] loop of [process_single_stock]; [fuel] as in [App]. *)
Fixpoint while_loop {Api : Type} {remote : HistoryV3Api Api} (fuel : nat) (api : Api)
    (instrument_key : string) (current_end : datetime)
    (all_candles : list raw_candle)
  : option (py (list raw_candle * list window) * Api) :=
  match fuel with
  | O => None
  | S fuel' =>
    if dt_leb START_DATE current_end then
      let current_start :=
        dt_max (sub_days current_end CHUNK_SIZE_DAYS) START_DATE in
      let '(fetched, api) :=
        fetch_chunk api instrument_key current_start current_end in
      match fetched with
      | Raise e => Some (Raise e, api)
      | Ok chunk_candles =>
        let w := mk_window current_start current_end chunk_candles in
        let all_candles :=
          match chunk_candles with
          | _ :: _ => all_candles ++ chunk_candles
          | [] => all_candles
          end in
        let current_end := sub_days current_start 1 in
        if dt_leb current_start START_DATE then
          Some (Ok (all_candles, [w]), api)
        else logged w (while_loop fuel' api instrument_key current_end all_candles)
      end
    else Some (Ok (all_candles, []), api)
  end.

Definition long_date (r : long_row) : datetime := Date (cells r).

(** The part of [process_single_stock] under [# Process Data]. *)
Definition process_data (symbol : string) (all_candles : list raw_candle)
  : string * list long_row :=
  match all_candles with
  | _ :: _ =>
    let df := map (fun c => mk_long_row symbol (format_row c)) all_candles in
    (symbol, drop_duplicates long_date (sort_values dt_le long_date df))
  | [] => (symbol, [])
  end.

Definition process_single_stock {Api : Type} {remote : HistoryV3Api Api} (fuel : nat)
    (END_DATE : datetime) (api : Api) (symbol isin : string)
  : option (py (string * list long_row)) :=
  let instrument_key := get_instrument_key isin in
  match while_loop fuel api instrument_key END_DATE [] with
  | None => None
  | Some (Raise e, _) => Some (Raise e)
  | Some (Ok (all_candles, _), _) => Some (Ok (process_data symbol all_candles))
  end.

(** [pd.concat(all_data, ignore_index=True).sort_values(['Symbol', 'Date'])] *)
Definition merge_all (all_data : list (list long_row)) : list long_row :=
  sort_values symbol_date_le (fun r => (Symbol r, long_date r))
    (concat all_data).

(** The part of the main block under [# Merge all data and save to CSV]. *)
Definition save (all_data : list (list long_row)) : list event :=
  match all_data with
  | _ :: _ =>
    let final_df := merge_all all_data in
    [Stdout (MsgSaving (length all_data));
     ToCsv OUTPUT_FILENAME final_df;
     Stdout (MsgDone OUTPUT_FILENAME);
     Stdout (MsgTotals (length final_df) (date_range (map long_date final_df))
               (length (remove_dups (map Symbol final_df))))]
  | [] => [Stdout MsgNoDataFetched]
  end.

Definition finish (completed : list (string * py (string * list long_row)))
  : list event :=
  let '(all_data, progress) :=
    foldl (on_completed (fun acc sym df => acc ++ [df]) (map long_date))
      ([], []) completed in
  progress ++ save all_data.

Definition main {Api : Type} {remote : HistoryV3Api Api} (fuel : nat)
    (END_DATE : datetime) (input_exists : bool)
    (stock_df : list (string * string)) (client : string -> Api)
    (order : list nat) : option (list event) :=
  if negb input_exists then
    Some [Stdout MsgStarting; Stdout (MsgInputNotFound INPUT_FILE)]
  else
    let stock_map := to_dict stock_df in
    completed ← mapM (fun item =>
        result ← process_single_stock fuel END_DATE (client item.1) item.1 item.2;
        Some (item.1, result)) (omap (fun i => stock_map !! i) order);
    Some ([Stdout MsgStarting;
           Stdout (MsgFetching (length stock_map) MAX_WORKERS);
           Stdout MsgSettings]
          ++ finish completed).

End App2.

(** ** Clients and inputs used as test fixtures *)

(** [c in s] for one character. *)
Fixpoint contains (c : ascii) (s : string) : bool :=
  match s with
  | EmptyString => false
  | String c' rest => Ascii.eqb c' c || contains c rest
  end.

(** A daily candle stamped at midnight (+05:30) of a calendar date. *)
Definition candle_at (d : ymd) : raw_candle :=
  {| raw_wall := datetime_ymd (ymd_year d) (ymd_month d) (ymd_day d);
     raw_utcoffset := 330;
     raw_open := 0%Q; raw_high := 0%Q; raw_low := 0%Q; raw_close := 0%Q;
     raw_volume := 0; raw_open_interest := 0 |}.

Definition respond (cs : list raw_candle) : py api_response :=
  Ok {| data := Present {| candles := Present (Some cs) |} |}.

(** Data for windows that end in 2015 or later, nothing before. *)
Definition synthetic_api : HistoryV3Api unit :=
  {| get_historical_candle_data1 := fun api _ _ _ to_date _ =>
       (if 2015 <=? ymd_year to_date then respond [candle_at to_date]
        else respond [],
        api) |}.

(** One candle on the first and one on the last day of every window. *)
Definition boundary_api : HistoryV3Api unit :=
  {| get_historical_candle_data1 := fun api _ _ _ to_date from_date =>
       (respond [candle_at from_date; candle_at to_date], api) |}.

(** Every request is rejected (rate limit). *)
Definition throttled_api : HistoryV3Api unit :=
  {| get_historical_candle_data1 := fun api _ _ _ _ _ =>
       (Raise (ApiException 429), api) |}.

Definition sample_now : datetime :=
  {| toordinal := Calendar.ymd2ord 2024 6 15; time_of_day := 52200000000 |}.

Definition long_symbol_x : string := "|:/AAAAAAAAAAAAAAAAAAAAAAAAAAAAAAX".
Definition long_symbol_y : string := "|:/AAAAAAAAAAAAAAAAAAAAAAAAAAAAAAY".

Definition sample_row (symbol : string) (y m d : Z) : long_row :=
  {| Symbol := symbol;
     cells := format_row (candle_at (mk_ymd y m d)) |}.

Definition unsorted_batch : list raw_candle :=
  [candle_at (mk_ymd 2021 1 2); candle_at (mk_ymd 2020 12 31);
   candle_at (mk_ymd 2021 1 2); candle_at (mk_ymd 2021 1 1)].

Definition sample_all_data : list (list long_row) :=
  [[sample_row "B" 2021 1 2; sample_row "B" 2021 1 1]; [sample_row "A" 2021 1 1]].

Definition sample_roster : list (string * string) :=
  [("RELIANCE", "INE002A01018"); ("TCS", " INE467B01029")].

Definition roster_with_repeat : list (string * string) :=
  [("TCS", "OLD"); ("INFY", "INE009A01021"); ("TCS", "INE467B01029")].

Definition sample_batches : list (string * list raw_candle) :=
  [("B", [candle_at (mk_ymd 2021 1 2); candle_at (mk_ymd 2021 1 1);
          candle_at (mk_ymd 2021 1 2)]);
   ("A", [candle_at (mk_ymd 2021 1 1)])].

Definition long_symbol_z : string := "NSE|RELIANCE:INDUSTRIES/LIMITED-EQ-SERIES".

(** ** Predicates and bounds used to state the properties *)

(** The outcome of the API call behind one [fetch_chunk]. *)
Definition api_outcome {Api : Type} {remote : HistoryV3Api Api} (api : Api)
    (instrument_key : string) (start_date end_date : datetime)
  : py api_response :=
  (get_historical_candle_data1 api instrument_key INTERVAL_UNIT
     INTERVAL_VALUE (strftime_Ymd end_date) (strftime_Ymd start_date)).1.

(** One of the three characters a sheet name must not have. *)
Definition is_separator (c : ascii) : bool :=
  Ascii.eqb c "|" || Ascii.eqb c ":" || Ascii.eqb c "/".

(** The characters of [symbol] other than ['|'], [':'] and ['/'], in the
    order in which they stand in [symbol]. *)
Definition kept_characters (symbol : string) : list ascii :=
  List.filter (λ c, negb (is_separator c)) (list_ascii_of_string symbol).

(** A symbol without any of the three separators. *)
Definition separator_free (s : string) : Prop :=
  contains "|" s = false ∧ contains ":" s = false ∧ contains "/" s = false.

(** The shape of the log of a finished loop that started at [current_end]:
    no window once the year is before 2000; a last, empty window that ends
    before 2010; otherwise a window followed by the log from its start. *)
Inductive adaptive_trace : datetime → list window → Prop :=
| trace_done e :
    year e < 2000 → adaptive_trace e []
| trace_break e :
    2000 <= year e → year e < 2010 →
    adaptive_trace e [mk_window (sub_days e CHUNK_SIZE_DAYS) e []]
| trace_step e chunk log :
    2000 <= year e → chunk ≠ [] ∨ 2010 <= year e →
    adaptive_trace (sub_days e CHUNK_SIZE_DAYS) log →
    adaptive_trace e (mk_window (sub_days e CHUNK_SIZE_DAYS) e chunk :: log).

(** Fuel that lets the adaptive loop started at [now] finish, whatever the
    fetcher answers. *)
Definition adaptive_fuel (now : datetime) : nat :=
  S (Z.to_nat (Z.max 0 ((toordinal now - 730120) `div` 1095 + 1))).

(** The number of windows after which the loop started at [now] has asked
    about a year before 2010. *)
Definition synthetic_bound (now : datetime) : nat :=
  S (Z.to_nat (Z.max 0 ((toordinal now - 733773) `div` 1095 + 1))).

(** The shape of the log of a finished loop that started at [current_end]:
    no window for an end before the floor; a last window whose start is the
    floor; otherwise a window followed by the log from the day before its
    start. *)
Inductive horizon_trace : datetime → list window → Prop :=
| horizon_done e :
    ¬ dt_le App2.START_DATE e → horizon_trace e []
| horizon_last e chunk :
    dt_le App2.START_DATE e →
    dt_le (dt_max (sub_days e CHUNK_SIZE_DAYS) App2.START_DATE) App2.START_DATE →
    horizon_trace e
      [mk_window (dt_max (sub_days e CHUNK_SIZE_DAYS) App2.START_DATE) e chunk]
| horizon_step e chunk log :
    dt_le App2.START_DATE e →
    ¬ dt_le (dt_max (sub_days e CHUNK_SIZE_DAYS) App2.START_DATE) App2.START_DATE →
    horizon_trace
      (sub_days (dt_max (sub_days e CHUNK_SIZE_DAYS) App2.START_DATE) 1) log →
    horizon_trace e
      (mk_window (dt_max (sub_days e CHUNK_SIZE_DAYS) App2.START_DATE) e chunk
       :: log).

(** Fuel that lets the fixed-horizon loop started at [now] finish. *)
Definition horizon_fuel (now : datetime) : nat :=
  S (Z.to_nat (Z.max 0 ((toordinal now - 733773) `div` 1096 + 1))).

(** A future that brought no rows: an empty frame or an exception. *)
Definition no_rows {R : Type} (done : string * py (string * list R)) : Prop :=
  match done.2 with
  | Ok (_, _ :: _) => False
  | _ => True
  end.

(** Every character of [s] is whitespace for [str.strip]. *)
Fixpoint all_space (s : string) : bool :=
  match s with
  | EmptyString => true
  | String c rest => is_space c && all_space rest
  end.

(** Every character of [s] is one of the separators ['|'], [':'], ['/']. *)
Fixpoint only_separators (s : string) : bool :=
  match s with
  | EmptyString => true
  | String c rest =>
    (Ascii.eqb c "|" || Ascii.eqb c ":" || Ascii.eqb c "/") && only_separators rest
  end.

(** The symbol a progress line is about. *)
Definition reported (e : event) : option string :=
  match e with
  | Stdout (MsgOk sym _ _) | Stdout (MsgNoData sym) | Stdout (MsgError sym _) =>
    Some sym
  | _ => None
  end.

(** The symbol under which a completed future is reported: the one it
    returned, or the one it was submitted for when it raised. *)
Definition future_symbol {R : Type} (done : string * py (string * list R))
  : string :=
  match done.2 with
  | Ok (sym, _) => sym
  | Raise _ => done.1
  end.

(** The frames with rows among the completed futures, in completion order. *)
Definition frames_with_rows {R : Type}
    (completed : list (string * py (string * list R)))
  : list (string * list R) :=
  omap (λ done, match done.2 with
                | Ok (sym, r :: df) => Some (sym, r :: df)
                | _ => None
                end) completed.

(** * Properties *)

(** ** Calendar facts *)

Example ord_2010 : Calendar.ymd2ord 2010 1 1 = 733773.
Proof. reflexivity. Qed.

Example ymd_733773 : Calendar.ord2ymd 733773 = (2010, 1, 1).
Proof. reflexivity. Qed.

Example ymd_733772 : Calendar.ord2ymd 733772 = (2009, 12, 31).
Proof. reflexivity. Qed.

Example ymd_leap_day :
  Calendar.ord2ymd (Calendar.ymd2ord 2024 2 29) = (2024, 2, 29).
Proof. reflexivity. Qed.

Example ymd_last_day_2000 :
  Calendar.ord2ymd (Calendar.ymd2ord 2000 12 31) = (2000, 12, 31).
Proof. reflexivity. Qed.

Ltac year_threshold :=
  unfold year, Calendar.year_of_ordinal, Calendar.ord2ymd, Calendar.DI400Y,
    Calendar.DI100Y, Calendar.DI4Y;
  cbv zeta;
  repeat match goal with
         | |- context [if ?b then _ else _] => destruct b eqn:?
         end;
  cbn [fst snd]; Z.div_mod_to_equations; lia.

(** A date is in year 2000 or later exactly from 2000-01-01 on. *)
Lemma year_ge_2000 d : 2000 <= year d <-> 730120 <= toordinal d.
Proof. year_threshold. Qed.

Lemma year_ge_2010 d : 2010 <= year d <-> 733773 <= toordinal d.
Proof. year_threshold. Qed.

Lemma year_ge_2015 d : 2015 <= year d <-> 735599 <= toordinal d.
Proof. year_threshold. Qed.

Lemma strftime_year d : ymd_year (strftime_Ymd d) = year d.
Proof.
  unfold strftime_Ymd, year, Calendar.year_of_ordinal.
  by destruct (Calendar.ord2ymd (toordinal d)) as [[y m] dd].
Qed.

(** ** Order on datetimes *)

Lemma dt_leb_le a b : dt_leb a b = true <-> dt_le a b.
Proof.
  unfold dt_leb, dt_le.
  rewrite orb_true_iff, andb_true_iff, Z.ltb_lt, Z.eqb_eq, N.leb_le. tauto.
Qed.

Lemma dt_ltb_nle a b : dt_ltb a b = true <-> ¬ dt_le b a.
Proof.
  unfold dt_ltb, dt_le.
  rewrite orb_true_iff, andb_true_iff, Z.ltb_lt, Z.eqb_eq, N.ltb_lt. lia.
Qed.

#[global] Instance dt_le_trans : Transitive dt_le.
Proof. intros a b c. unfold dt_le. lia. Qed.

#[global] Instance dt_le_total : Total dt_le.
Proof. intros a b. unfold dt_le. lia. Qed.

Lemma dt_le_antisym a b : dt_le a b -> dt_le b a -> a = b.
Proof.
  destruct a as [oa ta], b as [ob tb]. unfold dt_le; simpl.
  intros H1 H2. f_equal; lia.
Qed.

(** ** The chunk fetcher *)

Section fetcher.
Context {Api : Type} {remote : HistoryV3Api Api}.

Lemma fetch_chunk_value api key s e :
  (fetch_chunk api key s e).1 =
    Ok (match api_outcome api key s e with
        | Ok {| data := Present {| candles := Present (Some cs) |} |} => cs
        | _ => []
        end).
Proof.
  unfold fetch_chunk, api_outcome.
  destruct (get_historical_candle_data1 _ _ _ _ _ _) as [called api'].
  simpl. destruct called as [[[|[[|[[|c cs]|]]]]]|]; reflexivity.
Qed.

Lemma fetch_chunk_ok api key s e : ∃ cs, (fetch_chunk api key s e).1 = Ok cs.
Proof. rewrite fetch_chunk_value. eauto. Qed.

(** C4: [fetch_chunk] returns a list of candles whatever the API call
    does: it never raises, gives the empty list when the call raises, when
    the response has no [data] or no [candles] field or a [None] one, and
    gives the candles of the response otherwise. *)
Theorem fetch_chunk_never_raises api key s e :
  (∃ cs, (fetch_chunk api key s e).1 = Ok cs)
  ∧ (∀ err, api_outcome api key s e = Raise err →
       (fetch_chunk api key s e).1 = Ok [])
  ∧ (api_outcome api key s e = Ok {| data := Absent |} →
       (fetch_chunk api key s e).1 = Ok [])
  ∧ (api_outcome api key s e = Ok {| data := Present {| candles := Absent |} |} →
       (fetch_chunk api key s e).1 = Ok [])
  ∧ (api_outcome api key s e
       = Ok {| data := Present {| candles := Present None |} |} →
       (fetch_chunk api key s e).1 = Ok [])
  ∧ (∀ cs, api_outcome api key s e
       = Ok {| data := Present {| candles := Present (Some cs) |} |} →
       (fetch_chunk api key s e).1 = Ok cs).
Proof.
  rewrite fetch_chunk_value. split; [eauto|].
  repeat split; intros; by simplify_eq/=; rewrite ?H.
Qed.
End fetcher.

Lemma fetch_chunk_never_raises_witness :
  api_outcome (remote := throttled_api) () "NSE_EQ|X" sample_now sample_now
  = Raise (ApiException 429)
  ∧ (fetch_chunk (remote := throttled_api) () "NSE_EQ|X" sample_now sample_now).1
    = Ok [].
Proof.
  split; [reflexivity|].
  exact (proj1 (proj2 (fetch_chunk_never_raises (remote := throttled_api) ()
                         "NSE_EQ|X" sample_now sample_now))
           (ApiException 429) eq_refl).
Defined.

Example fetch_chunk_throttled :
  (fetch_chunk (remote := throttled_api) () "NSE_EQ|X" sample_now sample_now).1
  = Ok [].
Proof. reflexivity. Qed.

(** ** The instrument key resolver *)

Example strip_example : strip "  INE002A01018 	" = "INE002A01018".
Proof. reflexivity. Qed.

Example strip_inner : strip " a b " = "a b".
Proof. reflexivity. Qed.

Example key_example : get_instrument_key " INE002A01018" = "NSE_EQ|INE002A01018".
Proof. reflexivity. Qed.

(** C9: the key is the fixed prefix followed by the trimmed identifier, for
    every identifier; identifiers with equal trimmed forms get equal keys and
    identifiers with different trimmed forms get different keys. *)
Theorem get_instrument_key_injective (a b : string) :
  get_instrument_key a = "NSE_EQ|" +:+ strip a
  ∧ (strip a = strip b → get_instrument_key a = get_instrument_key b)
  ∧ (strip a ≠ strip b → get_instrument_key a ≠ get_instrument_key b).
Proof.
  unfold get_instrument_key. split; [done|]. split.
  - by intros ->.
  - intros Hne Heq. apply Hne. by eapply (inj (String.app EXCHANGE_PREFIX)).
Qed.

Lemma get_instrument_key_injective_witness :
  (strip " INE002A01018" = strip "INE002A01018 "
   ∧ get_instrument_key " INE002A01018" = get_instrument_key "INE002A01018 ")
  ∧ (strip "INE002A01018" ≠ strip "INE467B01029"
     ∧ get_instrument_key "INE002A01018" ≠ get_instrument_key "INE467B01029").
Proof.
  assert (strip "INE002A01018" ≠ strip "INE467B01029") as Hne by (by vm_compute).
  split.
  - split; [reflexivity|].
    exact (proj1 (proj2 (get_instrument_key_injective
                           " INE002A01018" "INE002A01018 ")) eq_refl).
  - split; [exact Hne|].
    exact (proj2 (proj2 (get_instrument_key_injective
                           "INE002A01018" "INE467B01029")) Hne).
Defined.

(** ** Sheet names *)

Lemma contains_append c s1 s2 :
  contains c (s1 +:+ s2) = contains c s1 || contains c s2.
Proof. induction s1 as [|c' s1 IH]; simpl; [done|]. by rewrite IH, orb_assoc. Qed.

Lemma contains_replace_other c old s :
  contains c (replace old "" s) = false ↔ (c = old ∨ contains c s = false).
Proof.
  induction s as [|c' s IH]; simpl; [tauto|].
  destruct (Ascii.eqb c' old) eqn:Hold.
  - apply Ascii.eqb_eq in Hold as ->. simpl. rewrite IH.
    destruct (Ascii.eqb old c) eqn:Hc; simpl.
    + apply Ascii.eqb_eq in Hc as ->. tauto.
    + apply Ascii.eqb_neq in Hc. split; [|tauto]. intros [->|?]; [done|tauto].
  - simpl. apply Ascii.eqb_neq in Hold.
    destruct (Ascii.eqb c' c) eqn:Hc; simpl.
    + apply Ascii.eqb_eq in Hc as ->. split; [done|]. intros [->|?]; done.
    + apply IH.
Qed.

Lemma contains_replace old s : contains old (replace old "" s) = false.
Proof. apply contains_replace_other. by left. Qed.

Lemma contains_replace_keep c old s :
  contains c s = false → contains c (replace old "" s) = false.
Proof. intros. apply contains_replace_other. by right. Qed.

Lemma contains_slice_to c n s :
  contains c s = false → contains c (slice_to n s) = false.
Proof.
  unfold slice_to. revert n. induction s as [|c' s IH]; intros [|n]; simpl; try done.
  intros [? ?]%orb_false_iff. apply orb_false_iff. auto.
Qed.

Lemma length_slice_to n s : (String.length (slice_to n s) ≤ n)%nat.
Proof.
  unfold slice_to. revert n. induction s as [|c s IH]; intros [|n]; simpl; try lia.
  specialize (IH n). lia.
Qed.

Lemma slice_to_short n s : (String.length s ≤ n)%nat → slice_to n s = s.
Proof.
  unfold slice_to. revert n. induction s as [|c s IH]; intros [|n]; simpl; try done; try lia.
  intros. f_equal. apply IH. lia.
Qed.

Lemma replace_absent old s : contains old s = false → replace old "" s = s.
Proof.
  induction s as [|c s IH]; simpl; [done|].
  intros [Hc ?]%orb_false_iff. rewrite Hc. f_equal. auto.
Qed.

Lemma safe_name_separator_free symbol : separator_free (App.safe_name symbol).
Proof.
  unfold App.safe_name. repeat split; apply contains_slice_to;
    auto using contains_replace, contains_replace_keep.
Qed.

Lemma safe_name_id symbol :
  separator_free symbol → (String.length symbol ≤ 30)%nat →
  App.safe_name symbol = symbol.
Proof.
  intros (H1 & H2 & H3) Hlen. unfold App.safe_name.
  rewrite (replace_absent "|") by done.
  rewrite (replace_absent ":") by done.
  rewrite (replace_absent "/") by done.
  by apply slice_to_short.
Qed.

Example safe_name_example :
  App.safe_name "NSE|A:B/C-0123456789012345678901234567890"
  = "NSEABC-01234567890123456789012".
Proof. reflexivity. Qed.

(** C8, as claimed, fails: two different symbols, each with ['|'], [':'] and
    ['/'] in it and longer than 30 characters, get the same sheet name. *)
Lemma safe_name_collision :
  long_symbol_x ≠ long_symbol_y
  ∧ (30 < String.length long_symbol_x)%nat
  ∧ (30 < String.length long_symbol_y)%nat
  ∧ contains "|" long_symbol_x && contains ":" long_symbol_x
      && contains "/" long_symbol_x = true
  ∧ contains "|" long_symbol_y && contains ":" long_symbol_y
      && contains "/" long_symbol_y = true
  ∧ App.safe_name long_symbol_x = App.safe_name long_symbol_y.
Proof.
  split; [by vm_compute|].
  split; [vm_compute; lia|].
  split; [vm_compute; lia|].
  by vm_compute.
Qed.

Lemma characters_replace old s :
  list_ascii_of_string (replace old "" s)
  = List.filter (λ c, negb (Ascii.eqb c old)) (list_ascii_of_string s).
Proof.
  induction s as [|c s IH]; [done|]. cbn [replace list_ascii_of_string List.filter].
  destruct (Ascii.eqb c old); cbn [negb]; [exact IH|].
  cbn [list_ascii_of_string]. by rewrite IH.
Qed.

Lemma characters_slice_to n s :
  list_ascii_of_string (slice_to n s) = take n (list_ascii_of_string s).
Proof.
  unfold slice_to. revert n.
  induction s as [|c s IH]; intros [|n]; cbn; try done. by rewrite IH.
Qed.

Lemma filter_separators (l : list ascii) :
  List.filter (λ c, negb (Ascii.eqb c "/"))
    (List.filter (λ c, negb (Ascii.eqb c ":"))
       (List.filter (λ c, negb (Ascii.eqb c "|")) l))
  = List.filter (λ c, negb (is_separator c)) l.
Proof.
  induction l as [|c l IH]; [done|]. unfold is_separator in *.
  cbn [List.filter].
  destruct (Ascii.eqb c "|"); cbn [negb orb List.filter]; [exact IH|].
  destruct (Ascii.eqb c ":"); cbn [negb orb List.filter]; [exact IH|].
  destruct (Ascii.eqb c "/"); cbn [negb orb List.filter]; [exact IH|].
  by rewrite IH.
Qed.

Lemma characters_safe_name symbol :
  list_ascii_of_string (App.safe_name symbol) = take 30 (kept_characters symbol).
Proof.
  unfold App.safe_name, kept_characters.
  by rewrite characters_slice_to, !characters_replace, filter_separators.
Qed.

Lemma length_characters s : String.length s = length (list_ascii_of_string s).
Proof. induction s as [|c s IH]; simpl; [done|]. by rewrite IH. Qed.

Lemma characters_inj a b :
  list_ascii_of_string a = list_ascii_of_string b → a = b.
Proof.
  intros Heq.
  rewrite <- (string_of_list_ascii_of_string a), <- (string_of_list_ascii_of_string b).
  by rewrite Heq.
Qed.

Example kept_characters_example :
  kept_characters "NSE|A:B/C" = list_ascii_of_string "NSEABC".
Proof. reflexivity. Qed.

(** C8, amended: the sheet name of every symbol is the symbol with every
    ['|'], [':'] and ['/'] taken out, all other characters kept in their
    order, cut to its first 30 characters; so it has none of the three
    characters and [min 30 n] characters, [n] being the number of characters
    kept.  Two symbols get the same sheet name exactly when their first 30
    kept characters are the same, and a symbol without the three characters
    and of at most 30 characters is its own sheet name. *)
Theorem safe_name_sanitized :
  (∀ symbol,
     list_ascii_of_string (App.safe_name symbol)
     = take 30 (kept_characters symbol))
  ∧ (∀ symbol,
       separator_free (App.safe_name symbol)
       ∧ String.length (App.safe_name symbol)
         = (30 `min` length (kept_characters symbol))%nat)
  ∧ (∀ a b, App.safe_name a = App.safe_name b
            ↔ take 30 (kept_characters a) = take 30 (kept_characters b))
  ∧ (∀ symbol, separator_free symbol → (String.length symbol ≤ 30)%nat →
               App.safe_name symbol = symbol).
Proof.
  split; [exact characters_safe_name|]. split; [|split].
  - intros symbol. split; [apply safe_name_separator_free|].
    by rewrite length_characters, characters_safe_name, length_take.
  - intros a b. rewrite <- !characters_safe_name. split; [by intros ->|].
    apply characters_inj.
  - exact safe_name_id.
Qed.

Lemma safe_name_sanitized_witness :
  (30 < String.length long_symbol_z)%nat
  ∧ contains "|" long_symbol_z && contains ":" long_symbol_z
      && contains "/" long_symbol_z = true
  ∧ App.safe_name long_symbol_z = "NSERELIANCEINDUSTRIESLIMITED-E"
  ∧ App.safe_name long_symbol_x = "AAAAAAAAAAAAAAAAAAAAAAAAAAAAAA"
  ∧ App.safe_name long_symbol_x ≠ App.safe_name long_symbol_z.
Proof.
  split; [vm_compute; lia|]. split; [by vm_compute|].
  pose proof (proj1 safe_name_sanitized) as Hname.
  pose proof (proj1 (proj2 (proj2 safe_name_sanitized))) as Hsame.
  split; [|split].
  - apply characters_inj. rewrite (Hname long_symbol_z). by vm_compute.
  - apply characters_inj. rewrite (Hname long_symbol_x). by vm_compute.
  - intros Heq%Hsame. by vm_compute in Heq.
Defined.

(** ** Sorting and duplicate removal *)

Section frames.
Context {A K : Type} `{!EqDecision K} (key : A → K).

Lemma drop_duplicates_seen_elem seen df x :
  x ∈ drop_duplicates_seen key seen df → x ∈ df ∧ key x ∉ seen.
Proof.
  revert seen. induction df as [|r rest IH]; intros seen; simpl.
  - by intros ?%elem_of_nil.
  - destruct (decide (key r ∈ seen)) as [Hin|Hnin].
    + intros [? ?]%IH. split; [by right|done].
    + intros [->|Hx]%elem_of_cons; [split; [by left|done]|].
      apply IH in Hx as [? Hk]. split; [by right|].
      intros ?. apply Hk. by right.
Qed.

Lemma drop_duplicates_seen_NoDup seen df :
  NoDup (map key (drop_duplicates_seen key seen df)).
Proof.
  revert seen. induction df as [|r rest IH]; intros seen; simpl.
  - constructor.
  - destruct (decide (key r ∈ seen)); [apply IH|].
    simpl. constructor; [|apply IH].
    intros (x & Hk & Hx)%list_elem_of_fmap.
    apply drop_duplicates_seen_elem in Hx as [_ Hx].
    apply Hx. rewrite Hk. by left.
Qed.

Lemma drop_duplicates_seen_keys seen df k :
  k ∈ map key df → k ∈ seen ∨ k ∈ map key (drop_duplicates_seen key seen df).
Proof.
  revert seen. induction df as [|r rest IH]; intros seen; simpl.
  - by intros ?%elem_of_nil.
  - intros [->|Hk]%elem_of_cons.
    + destruct (decide (key r ∈ seen)); [by left|]. right. by left.
    + destruct (decide (key r ∈ seen)); [by apply IH|].
      destruct (IH (key r :: seen) Hk) as [[->|?]%elem_of_cons|?].
      * right. by left.
      * by left.
      * right. by right.
Qed.

Lemma drop_duplicates_seen_sorted (R : relation A) seen df :
  StronglySorted R df → StronglySorted R (drop_duplicates_seen key seen df).
Proof.
  revert seen. induction df as [|r rest IH]; intros seen; simpl; [done|].
  intros [Hs Hall]%StronglySorted_inv.
  destruct (decide (key r ∈ seen)); [by apply IH|].
  constructor; [by apply IH|].
  apply Forall_forall. intros x [Hx _]%drop_duplicates_seen_elem.
  by eapply Forall_forall in Hall.
Qed.

Lemma drop_duplicates_keys df k :
  k ∈ map key (drop_duplicates key df) ↔ k ∈ map key df.
Proof.
  unfold drop_duplicates. split.
  - intros (x & -> & [? _]%drop_duplicates_seen_elem)%list_elem_of_fmap.
    by apply list_elem_of_fmap_2.
  - intros [?%elem_of_nil|?]%(drop_duplicates_seen_keys []); done.
Qed.

Context (le : relation K) `{!RelDecision le, !Transitive le, !Total le}.

Lemma sort_values_sorted df :
  StronglySorted (λ a b, le (key a) (key b)) (sort_values le key df).
Proof.
  unfold sort_values. apply StronglySorted_merge_sort.
  - intros a b c. apply transitivity.
  - intros a b. apply (total le).
Qed.

Lemma sort_values_Permutation df : sort_values le key df ≡ₚ df.
Proof. unfold sort_values. apply merge_sort_Permutation. Qed.

Lemma StronglySorted_keys l :
  StronglySorted (λ a b, le (key a) (key b)) l → StronglySorted le (map key l).
Proof.
  induction 1 as [|x l Hs IH Hall]; simpl; constructor; [done|].
  by apply Forall_fmap.
Qed.

(** Sorting and then dropping duplicates: keys ascending, no key twice,
    and exactly the keys that came in. *)
Lemma sort_dedup_normal df :
  let out := drop_duplicates key (sort_values le key df) in
  NoDup (map key out) ∧ StronglySorted le (map key out)
  ∧ ∀ k, k ∈ map key out ↔ k ∈ map key df.
Proof.
  simpl. split; [apply drop_duplicates_seen_NoDup|]. split.
  - apply StronglySorted_keys, drop_duplicates_seen_sorted, sort_values_sorted.
  - intros k. rewrite drop_duplicates_keys.
    by rewrite sort_values_Permutation.
Qed.
End frames.

Example process_data_example :
  map (λ r, strftime_Ymd (Date r)) (App.process_data "X" unsorted_batch).2
  = [mk_ymd 2020 12 31; mk_ymd 2021 1 1; mk_ymd 2021 1 2].
Proof. vm_compute. reflexivity. Qed.

(** C3: for every batch of raw candles, in both scripts, the frame built
    under [# Process Data] has no date twice, has its dates in ascending
    order, and has exactly the dates of the batch. *)
Theorem normalized_sorted_unique (symbol : string) (all_candles : list raw_candle) :
  let df := (App.process_data symbol all_candles).2 in
  let df2 := (App2.process_data symbol all_candles).2 in
  (NoDup (map Date df) ∧ StronglySorted dt_le (map Date df)
   ∧ ∀ d, d ∈ map Date df ↔ d ∈ map raw_wall all_candles)
  ∧ (NoDup (map App2.long_date df2) ∧ StronglySorted dt_le (map App2.long_date df2)
     ∧ ∀ d, d ∈ map App2.long_date df2 ↔ d ∈ map raw_wall all_candles).
Proof.
  unfold App.process_data, App2.process_data.
  destruct all_candles as [|c cs]; cbn zeta.
  { simpl. repeat split; (constructor || done). }
  set (raw := c :: cs). cbn [snd]. split.
  - destruct (sort_dedup_normal Date dt_le (map format_row raw)) as (H1 & H2 & H3).
    split; [done|]. split; [done|]. intros d. rewrite H3.
    by rewrite <- list_fmap_compose.
  - destruct (sort_dedup_normal App2.long_date dt_le
                (map (λ c, mk_long_row symbol (format_row c)) raw)) as (H1 & H2 & H3).
    split; [done|]. split; [done|]. intros d. rewrite H3.
    by rewrite <- list_fmap_compose.
Qed.

(** ** Long-format aggregation *)

#[global] Instance symbol_date_le_trans : Transitive symbol_date_le.
Proof.
  intros [a1 a2] [b1 b2] [c1 c2]. unfold symbol_date_le; simpl.
  intros [[Hab Hle1]|[-> Hd1]] [[Hbc Hle2]|[-> Hd2]].
  - left. split; [|by etrans].
    intros ->. apply Hab. by apply (anti_symm String.le).
  - by left.
  - by left.
  - right. split; [done|by etrans].
Qed.

#[global] Instance symbol_date_le_total : Total symbol_date_le.
Proof.
  intros [a1 a2] [b1 b2]. unfold symbol_date_le; simpl.
  destruct (decide (a1 = b1)) as [->|Hne].
  - destruct (total dt_le a2 b2); [left|right]; by right.
  - destruct (total String.le a1 b1); [left|right]; left; split; auto.
Qed.

(** C6: the long table is the concatenation of the per-symbol frames
    sorted ascending by (symbol, date); for the frames of "B" with dates
    2021-01-02, 2021-01-01 and of "A" with date 2021-01-01 the rows come out
    as ("A", 2021-01-01), ("B", 2021-01-01), ("B", 2021-01-02). *)
Theorem merge_all_sorted :
  (∀ all_data,
     StronglySorted symbol_date_le
       (map (λ r, (Symbol r, App2.long_date r)) (App2.merge_all all_data))
     ∧ App2.merge_all all_data ≡ₚ concat all_data)
  ∧ map (λ r, (Symbol r, strftime_Ymd (App2.long_date r)))
      (App2.merge_all sample_all_data)
    = [("A", mk_ymd 2021 1 1); ("B", mk_ymd 2021 1 1); ("B", mk_ymd 2021 1 2)]
  ∧ App2.save sample_all_data !! 1%nat
    = Some (ToCsv App2.OUTPUT_FILENAME
              [sample_row "A" 2021 1 1; sample_row "B" 2021 1 1;
               sample_row "B" 2021 1 2]).
Proof.
  split; [|split; by vm_compute].
  intros all_data. unfold App2.merge_all. split.
  - apply (StronglySorted_keys _ symbol_date_le), sort_values_sorted; apply _.
  - apply merge_sort_Permutation.
Qed.

(** ** The adaptive-stop loop of [app.py] *)

Lemma logged_Some {Api : Type} (w : window) r out log (api' : Api) :
  logged w r = Some (Ok (out, log), api') →
  ∃ log', log = w :: log' ∧ r = Some (Ok (out, log'), api').
Proof.
  destruct r as [[[[cs ws]|e] api]|]; simpl; intros; simplify_eq. eauto.
Qed.

Lemma adaptive_trace_nil e log :
  adaptive_trace e log → (log = [] ↔ year e < 2000).
Proof. destruct 1; split; (done || lia). Qed.

Lemma last_cons_from_option {A B : Type} (f : A → B) (d : B) (x : A) (l : list A) :
  from_option f (f x) (last l) = from_option f d (last (x :: l)).
Proof.
  destruct l as [|y l]; [done|].
  change (last (x :: y :: l)) with (last (y :: l)).
  by destruct (last (y :: l)) eqn:Hl; [|by apply last_None in Hl].
Qed.

Lemma adaptive_trace_split e log pre w post :
  adaptive_trace e log → log = pre ++ w :: post →
  w_start w = sub_days (w_end w) CHUNK_SIZE_DAYS
  ∧ 2000 <= year (w_end w)
  ∧ w_end w = from_option w_start e (last pre)
  ∧ (post = [] →
     (w_candles w = [] ∧ year (w_end w) < 2010) ∨ year (w_start w) < 2000)
  ∧ (w_candles w = [] → year (w_end w) < 2010 → post = [])
  ∧ (year (w_start w) < 2000 → post = []).
Proof.
  intros Htr. revert pre.
  induction Htr as [e|e ? ?|e chunk log ? Hgo Htr IH]; intros pre Heq.
  - by destruct pre.
  - destruct pre as [|? [|? ?]]; simplify_eq/=. repeat split; auto.
  - destruct pre as [|w0 pre]; simplify_eq/=.
    + apply adaptive_trace_nil in Htr. repeat split; try done.
      * intros ->. right. by apply Htr.
      * intros -> ?. destruct Hgo; [done|lia].
      * apply Htr.
    + destruct (IH pre eq_refl) as (? & ? & Hend & ?).
      repeat split; try tauto.
      rewrite Hend.
      apply (last_cons_from_option w_start e
               (mk_window (sub_days e CHUNK_SIZE_DAYS) e chunk) pre).
Qed.

Section adaptive.
Context {Api : Type} {remote : HistoryV3Api Api}.

(** One evaluation of the loop, with the fetch of the window named. *)
Lemma adaptive_unfold fuel api key e cs :
  App.while_loop (S fuel) api key e cs =
    if App.STOP_YEAR <=? year e then
      let s := sub_days e CHUNK_SIZE_DAYS in
      match (fetch_chunk api key s e).1 with
      | Raise err => Some (Raise err, (fetch_chunk api key s e).2)
      | Ok [] =>
        if year e <? 2010
        then Some (Ok (cs, [mk_window s e []]), (fetch_chunk api key s e).2)
        else logged (mk_window s e [])
               (App.while_loop fuel (fetch_chunk api key s e).2 key s cs)
      | Ok chunk =>
        logged (mk_window s e chunk)
          (App.while_loop fuel (fetch_chunk api key s e).2 key s (cs ++ chunk))
      end
    else Some (Ok (cs, []), api).
Proof.
  simpl. destruct (App.STOP_YEAR <=? year e); [|done].
  destruct (fetch_chunk api key _ e) as [[[|c chunk]|err] api1]; done.
Qed.

(** What a finished loop returns: the candles of its windows, in the
    order fetched, and a log of the shape above whose windows hold what
    [fetch_chunk] gave for them. *)
Lemma adaptive_run fuel api key e cs out log api' :
  App.while_loop fuel api key e cs = Some (Ok (out, log), api') →
  adaptive_trace e log
  ∧ out = cs ++ concat (map w_candles log)
  ∧ Forall (λ w, ∃ api0,
      (fetch_chunk api0 key (w_start w) (w_end w)).1 = Ok (w_candles w)) log.
Proof.
  revert api e cs out log api'.
  induction fuel as [|fuel IH]; intros api e cs out log api'; [done|].
  rewrite adaptive_unfold. unfold App.STOP_YEAR.
  destruct (2000 <=? year e) eqn:Hyear.
  2:{ intros; simplify_eq. apply Z.leb_gt in Hyear.
      split; [by constructor|]. by rewrite app_nil_r. }
  apply Z.leb_le in Hyear. cbn zeta.
  destruct (fetch_chunk api key _ e).1 as [[|c chunk]|err] eqn:Hfetch; [| |done].
  - destruct (year e <? 2010) eqn:Hguard.
    + apply Z.ltb_lt in Hguard. intros; simplify_eq.
      split; [by constructor|]. split; [by rewrite app_nil_r|].
      repeat constructor. by exists api.
    + apply Z.ltb_ge in Hguard.
      intros (log' & -> & Hrec)%logged_Some.
      apply IH in Hrec as (Htr & -> & Hall).
      split; [constructor; auto|]. split; [done|].
      constructor; [by exists api|done].
  - intros (log' & -> & Hrec)%logged_Some.
    apply IH in Hrec as (Htr & -> & Hall).
    split; [constructor; auto|]. split; [by rewrite <- app_assoc|].
    constructor; [by exists api|done].
Qed.

(** More fuel does not change a result. *)
Lemma adaptive_fuel_mono fuel fuel' api key e cs r :
  (fuel ≤ fuel')%nat →
  App.while_loop fuel api key e cs = Some r →
  App.while_loop fuel' api key e cs = Some r.
Proof.
  revert fuel' api e cs r.
  induction fuel as [|fuel IH]; intros fuel' api e cs r Hle; [done|].
  destruct fuel' as [|fuel']; [lia|].
  rewrite !adaptive_unfold.
  destruct (App.STOP_YEAR <=? year e); [|done]. cbn zeta.
  assert (∀ w api1 e1 cs1,
    logged w (App.while_loop fuel api1 key e1 cs1) = Some r →
    logged w (App.while_loop fuel' api1 key e1 cs1) = Some r) as Hlog.
  { intros w api1 e1 cs1.
    destruct (App.while_loop fuel api1 key e1 cs1) as [r1|] eqn:Hr; [|done].
    by rewrite (IH fuel' _ _ _ r1) by (done || lia). }
  destruct (fetch_chunk api key _ e).1 as [[|c chunk]|err]; [|by apply Hlog|done].
  destruct (year e <? 2010); [done|by apply Hlog].
Qed.

(** The loop finishes: every window lies 1095 days before the previous
    one, and none is fetched for an end before 2000-01-01. *)
Lemma adaptive_terminates (n : nat) api key e cs :
  toordinal e < 730120 + 1095 * Z.of_nat n →
  ∃ out log api',
    App.while_loop (S n) api key e cs = Some (Ok (out, log), api')
    ∧ (length log ≤ n)%nat.
Proof.
  revert api e cs. induction n as [|n IH]; intros api e cs Hord;
    rewrite adaptive_unfold; unfold App.STOP_YEAR.
  - destruct (2000 <=? year e) eqn:Hyear.
    { apply Z.leb_le, year_ge_2000 in Hyear. lia. }
    by eexists _, _, _.
  - destruct (2000 <=? year e) eqn:Hyear; [|eexists _, _, _; split; [done|simpl; lia]].
    cbn zeta. set (s := sub_days e CHUNK_SIZE_DAYS).
    assert (toordinal s < 730120 + 1095 * Z.of_nat n) as Hs.
    { unfold s, CHUNK_SIZE_DAYS; simpl. lia. }
    destruct (fetch_chunk_ok api key s e) as [chunk ->].
    assert (∀ w cs1, ∃ out log api',
      logged w (App.while_loop (S n) (fetch_chunk api key s e).2 key s cs1)
        = Some (Ok (out, log), api') ∧ (length log ≤ S n)%nat) as Hlog.
    { intros w cs1.
      destruct (IH (fetch_chunk api key s e).2 s cs1 Hs) as (out & log & api' & -> & ?).
      eexists _, _, _. split; [done|simpl; lia]. }
    destruct chunk as [|c chunk]; [|apply Hlog].
    destruct (year e <? 2010); [|apply Hlog].
    eexists _, _, _. split; [done|simpl; lia].
Qed.
End adaptive.

Section adaptive_claims.
Context {Api : Type} {remote : HistoryV3Api Api}.

Lemma adaptive_finishes api key now :
  ∃ out log api', ∀ fuel, (adaptive_fuel now ≤ fuel)%nat →
    App.while_loop fuel api key now [] = Some (Ok (out, log), api').
Proof.
  destruct (adaptive_terminates
              (Z.to_nat (Z.max 0 ((toordinal now - 730120) `div` 1095 + 1)))
              api key now []) as (out & log & api' & Hrun & _).
  { pose proof (Z.div_mod (toordinal now - 730120) 1095 ltac:(lia)).
    pose proof (Z.mod_pos_bound (toordinal now - 730120) 1095 ltac:(lia)). lia. }
  exists out, log, api'. intros fuel Hle.
  by eapply adaptive_fuel_mono.
Qed.

(** C1: the loop of [app.py] finishes for every fetcher, and in its log a
    window that came back empty is the last one exactly when its end year
    is before 2010; an empty window with end year 2010 or later is
    followed by a window whose end is the empty window's start, 1095 days
    before its end. *)
Theorem adaptive_stop_on_empty_window api key now :
  ∃ all_candles log api',
    (∀ fuel, (adaptive_fuel now ≤ fuel)%nat →
       App.while_loop fuel api key now []
       = Some (Ok (all_candles, log), api'))
    ∧ Forall (λ w, ∃ api0,
        (fetch_chunk api0 key (w_start w) (w_end w)).1 = Ok (w_candles w)) log
    ∧ ∀ pre w post, log = pre ++ w :: post → w_candles w = [] →
        (post = [] ↔ year (w_end w) < 2010)
        ∧ (2010 <= year (w_end w) →
           ∃ w' post', post = w' :: post'
             ∧ w_end w' = w_start w
             ∧ w_start w = sub_days (w_end w) CHUNK_SIZE_DAYS).
Proof.
  destruct (adaptive_finishes api key now) as (out & log & api' & Hrun).
  exists out, log, api'. split; [done|].
  destruct (adaptive_run _ _ _ _ _ _ _ _ (Hrun _ (le_n _))) as (Htr & _ & Hall).
  split; [done|]. intros pre w post Hlog Hempty.
  destruct (adaptive_trace_split _ _ _ _ _ Htr Hlog)
    as (Hstart & Hyear & _ & Hlast & Hbreak & _).
  assert (post = [] ↔ year (w_end w) < 2010) as Hiff.
  { split; [|by apply Hbreak].
    intros [[_ ?]|Hold]%Hlast; [done|].
    destruct (Z.lt_ge_cases (year (w_end w)) 2010) as [|Hge]; [done|].
    apply year_ge_2010 in Hge.
    assert (2000 <= year (w_start w)); [|lia].
    apply year_ge_2000. rewrite Hstart. unfold CHUNK_SIZE_DAYS; simpl. lia. }
  split; [done|]. intros Hge.
  destruct post as [|w' post'].
  { assert (year (w_end w) < 2010) by (by apply Hiff). lia. }
  exists w', post'. split; [done|]. split; [|done].
  destruct (adaptive_trace_split _ _ (pre ++ [w]) w' post' Htr) as (_ & _ & -> & _).
  { by rewrite <- app_assoc. }
  by rewrite last_snoc.
Qed.

Lemma synthetic_run key (n : nat) api e cs :
  (∀ api s e, (fetch_chunk api key s e).1 = Ok [] ↔ year e < 2015) →
  toordinal e < 733773 + 1095 * Z.of_nat n →
  ∃ out log api',
    App.while_loop (S n) api key e cs = Some (Ok (out, log), api')
    ∧ (length log ≤ S n)%nat.
Proof.
  intros Hsyn. revert api e cs.
  assert (∀ fuel api e cs, toordinal e < 733773 → ∃ out log api',
    App.while_loop (S fuel) api key e cs = Some (Ok (out, log), api')
    ∧ (length log ≤ 1)%nat) as Hold.
  { intros fuel api e cs Hord. rewrite adaptive_unfold.
    destruct (App.STOP_YEAR <=? year e); [|eexists _, _, _; split; [done|simpl; lia]].
    cbn zeta.
    assert (year e < 2010) as Hyear.
    { destruct (Z.lt_ge_cases (year e) 2010) as [|Hge%year_ge_2010]; [done|lia]. }
    rewrite (proj2 (Hsyn api _ e)) by lia.
    apply Z.ltb_lt in Hyear as ->. by eexists _, _, _. }
  induction n as [|n IH]; intros api e cs Hord.
  - apply Hold. lia.
  - destruct (Z.lt_ge_cases (toordinal e) 733773) as [Hlt|Hge].
    { destruct (Hold (S n) api e cs Hlt) as (out & log & api' & -> & ?).
      eexists _, _, _. split; [done|lia]. }
    rewrite adaptive_unfold. unfold App.STOP_YEAR.
    assert ((2000 <=? year e) = true) as ->.
    { apply Z.leb_le, year_ge_2000. lia. }
    assert ((year e <? 2010) = false) as ->.
    { apply Z.ltb_ge, year_ge_2010. lia. }
    cbn zeta. set (s := sub_days e CHUNK_SIZE_DAYS).
    assert (toordinal s < 733773 + 1095 * Z.of_nat n) as Hs.
    { unfold s, CHUNK_SIZE_DAYS; simpl. lia. }
    destruct (fetch_chunk_ok api key s e) as [chunk ->].
    assert (∀ w cs1, ∃ out log api',
      logged w (App.while_loop (S n) (fetch_chunk api key s e).2 key s cs1)
        = Some (Ok (out, log), api') ∧ (length log ≤ S (S n))%nat) as Hlog.
    { intros w cs1.
      destruct (IH (fetch_chunk api key s e).2 s cs1 Hs) as (out & log & api' & -> & ?).
      eexists _, _, _. split; [done|simpl; lia]. }
    destruct chunk; apply Hlog.
Qed.

(** C5: with a fetcher that has candles exactly for the windows whose end
    year is 2015 or later, the loop of [app.py] started at [now] finishes,
    and it has fetched at most [synthetic_bound now] windows: one for
    every 1095 days between [now] and 2010-01-01, and one more. *)
Theorem adaptive_terminates_synthetic api key now :
  (∀ api s e, (fetch_chunk api key s e).1 = Ok [] ↔ year e < 2015) →
  ∃ all_candles log api',
    (∀ fuel, (synthetic_bound now ≤ fuel)%nat →
       App.while_loop fuel api key now []
       = Some (Ok (all_candles, log), api'))
    ∧ (length log ≤ synthetic_bound now)%nat.
Proof.
  intros Hsyn. unfold synthetic_bound.
  set (n := Z.to_nat _).
  destruct (synthetic_run key n api now [] Hsyn) as (out & log & api' & Hrun & Hlen).
  { unfold n.
    pose proof (Z.div_mod (toordinal now - 733773) 1095 ltac:(lia)).
    pose proof (Z.mod_pos_bound (toordinal now - 733773) 1095 ltac:(lia)). lia. }
  exists out, log, api'. split; [|done].
  intros fuel Hle. by eapply adaptive_fuel_mono.
Qed.
End adaptive_claims.

Lemma synthetic_api_spec key api s e :
  (fetch_chunk (remote := synthetic_api) api key s e).1 = Ok [] ↔ year e < 2015.
Proof.
  rewrite fetch_chunk_value. unfold api_outcome; simpl.
  rewrite strftime_year.
  destruct (2015 <=? year e) eqn:Hy; simpl.
  - apply Z.leb_le in Hy. split; [done|lia].
  - apply Z.leb_gt in Hy. done.
Qed.

Example synthetic_windows :
  match App.while_loop (remote := synthetic_api) 7 () "NSE_EQ|X" sample_now [] with
  | Some (Ok (cs, log), _) =>
    (map (λ w, (year (w_end w), length (w_candles w))) log, length cs)
  | _ => ([], 0%nat)
  end
  = ([(2024, 1%nat); (2021, 1%nat); (2018, 1%nat); (2015, 1%nat);
      (2012, 0%nat); (2009, 0%nat)], 4%nat).
Proof. vm_compute. reflexivity. Qed.

Lemma adaptive_stop_on_empty_window_witness :
  ∃ all_candles pre w w' post,
    App.while_loop (remote := synthetic_api) (adaptive_fuel sample_now) ()
      "NSE_EQ|X" sample_now []
    = Some (Ok (all_candles, pre ++ w :: w' :: post), ())
    ∧ (w_candles w = [] ∧ year (w_end w) = 2012 ∧ w_end w' = w_start w)
    ∧ (w_candles w' = [] ∧ year (w_end w') = 2009 ∧ post = []).
Proof.
  destruct (adaptive_stop_on_empty_window (remote := synthetic_api) ()
              "NSE_EQ|X" sample_now) as (cs & log & api' & Hrun & Hall & Hlog).
  pose proof (Hrun _ (le_n _)) as Hrun0.
  vm_compute in Hrun0. injection Hrun0 as <- <- <-.
  lazymatch type of Hall with
  | Forall _ (?w1 :: ?w2 :: ?w3 :: ?w4 :: ?w5 :: ?w6 :: ?rest) =>
    eexists; exists [w1; w2; w3; w4], w5, w6, rest;
    destruct (Hlog [w1; w2; w3; w4] w5 (w6 :: rest) eq_refl eq_refl)
      as [_ Hnext];
    destruct (Hlog [w1; w2; w3; w4; w5] w6 rest eq_refl eq_refl)
      as [Hlast _]
  end.
  split; [by vm_compute|]. split.
  - split; [reflexivity|]. split; [by vm_compute|].
    destruct Hnext as (w' & post' & Heq & Hend & _); [by vm_compute|].
    by injection Heq as <- <-.
  - split; [reflexivity|]. split; [by vm_compute|].
    apply Hlast. by vm_compute.
Defined.

Lemma adaptive_terminates_synthetic_witness :
  (∀ api s e,
     (fetch_chunk (remote := synthetic_api) api "NSE_EQ|X" s e).1 = Ok []
     ↔ year e < 2015)
  ∧ ∃ all_candles log api',
      (∀ fuel, (synthetic_bound sample_now ≤ fuel)%nat →
         App.while_loop (remote := synthetic_api) fuel () "NSE_EQ|X" sample_now []
         = Some (Ok (all_candles, log), api'))
      ∧ (length log ≤ synthetic_bound sample_now)%nat.
Proof.
  split; [exact (synthetic_api_spec "NSE_EQ|X")|].
  exact (adaptive_terminates_synthetic (remote := synthetic_api) ()
           "NSE_EQ|X" sample_now (synthetic_api_spec "NSE_EQ|X")).
Defined.

(** ** The fixed-horizon loop of [app2.py] *)

Lemma START_DATE_le e : dt_le App2.START_DATE e ↔ 733773 <= toordinal e.
Proof. unfold dt_le. change (toordinal App2.START_DATE) with 733773.
  change (time_of_day App2.START_DATE) with 0%N. lia. Qed.

Lemma le_START_DATE e :
  dt_le e App2.START_DATE
  ↔ toordinal e < 733773 ∨ (toordinal e = 733773 ∧ time_of_day e = 0%N).
Proof. unfold dt_le. change (toordinal App2.START_DATE) with 733773.
  change (time_of_day App2.START_DATE) with 0%N. lia. Qed.

(** The clamped start of a window that ends at or after the floor. *)
Lemma clamped_start e :
  dt_le App2.START_DATE e →
  let s := dt_max (sub_days e CHUNK_SIZE_DAYS) App2.START_DATE in
  dt_le App2.START_DATE s ∧ dt_le s e
  ∧ (dt_le s App2.START_DATE → s = App2.START_DATE)
  ∧ (¬ dt_le s App2.START_DATE → s = sub_days e CHUNK_SIZE_DAYS).
Proof.
  intros He. cbn zeta. unfold dt_max.
  destruct (dt_ltb _ _) eqn:Hlt.
  - apply dt_ltb_nle in Hlt. repeat split; try done.
    + apply START_DATE_le. by change (toordinal App2.START_DATE) with 733773.
    + intros []. apply le_START_DATE. by right.
  - assert (dt_le App2.START_DATE (sub_days e CHUNK_SIZE_DAYS)) as Hge.
    { destruct (decide (dt_le App2.START_DATE (sub_days e CHUNK_SIZE_DAYS)));
        [done|]. by rewrite (proj2 (dt_ltb_nle _ _)) in Hlt. }
    repeat split; try done.
    + unfold dt_le, sub_days, CHUNK_SIZE_DAYS; simpl. lia.
    + intros ?. by apply dt_le_antisym.
Qed.

Lemma horizon_trace_nil e log :
  horizon_trace e log → (log = [] ↔ ¬ dt_le App2.START_DATE e).
Proof. destruct 1; split; done. Qed.

Lemma horizon_trace_split e log pre w post :
  horizon_trace e log → log = pre ++ w :: post →
  w_start w = dt_max (sub_days (w_end w) CHUNK_SIZE_DAYS) App2.START_DATE
  ∧ dt_le App2.START_DATE (w_end w)
  ∧ w_end w = from_option (λ p, sub_days (w_start p) 1) e (last pre)
  ∧ (post = [] ↔ toordinal (w_start w) = toordinal App2.START_DATE).
Proof.
  intros Htr. revert pre.
  induction Htr as [e|e chunk He Hs|e chunk log He Hs Htr IH]; intros pre Heq.
  - by destruct pre.
  - destruct pre as [|? [|? ?]]; simplify_eq/=.
    repeat split; try done.
    intros _. by rewrite (proj1 (proj2 (proj2 (clamped_start e He))) Hs).
  - destruct pre as [|w0 pre]; simplify_eq/=.
    + repeat split; try done.
      * intros ->. apply horizon_trace_nil in Htr as [Hnil _].
        specialize (Hnil eq_refl). rewrite START_DATE_le in Hnil.
        rewrite le_START_DATE in Hs.
        destruct (clamped_start e He) as (Hfloor%START_DATE_le & _).
        change (Calendar.ymd2ord 2010 1 1) with 733773.
        simpl in Hnil. lia.
      * intros Hord. apply horizon_trace_nil in Htr as [_ Hnil].
        apply Hnil. rewrite START_DATE_le. simpl. rewrite Hord.
        change (Calendar.ymd2ord 2010 1 1) with 733773. lia.
    + destruct (IH pre eq_refl) as (? & ? & Hend & ?).
      repeat split; try tauto.
      rewrite Hend.
      apply (last_cons_from_option (λ p, sub_days (w_start p) 1) e
               (mk_window _ e chunk) pre).
Qed.

(** The windows of a log cover every day from the floor to the end the loop
    started at. *)
Lemma horizon_trace_covers e log d :
  horizon_trace e log → 733773 <= d <= toordinal e →
  ∃ w, w ∈ log ∧ toordinal (w_start w) <= d <= toordinal (w_end w).
Proof.
  induction 1 as [e He|e chunk He Hs|e chunk log He Hs Htr IH]; intros Hd.
  - rewrite START_DATE_le in He. lia.
  - eexists. split; [by left|]. simpl.
    rewrite (proj1 (proj2 (proj2 (clamped_start e He))) Hs).
    change (toordinal App2.START_DATE) with 733773. lia.
  - destruct (Z.lt_ge_cases d
        (toordinal (dt_max (sub_days e CHUNK_SIZE_DAYS) App2.START_DATE)))
      as [Hlt|Hge].
    + destruct IH as (w & Hw & ?); [simpl; lia|].
      exists w. split; [by right|done].
    + eexists. split; [by left|]. simpl. lia.
Qed.

Section horizon.
Context {Api : Type} {remote : HistoryV3Api Api}.

Lemma horizon_unfold fuel api key e cs :
  App2.while_loop (S fuel) api key e cs =
    if dt_leb App2.START_DATE e then
      let s := dt_max (sub_days e CHUNK_SIZE_DAYS) App2.START_DATE in
      match (fetch_chunk api key s e).1 with
      | Raise err => Some (Raise err, (fetch_chunk api key s e).2)
      | Ok chunk =>
        if dt_leb s App2.START_DATE
        then Some (Ok (cs ++ chunk, [mk_window s e chunk]),
                   (fetch_chunk api key s e).2)
        else logged (mk_window s e chunk)
               (App2.while_loop fuel (fetch_chunk api key s e).2 key
                  (sub_days s 1) (cs ++ chunk))
      end
    else Some (Ok (cs, []), api).
Proof.
  simpl. destruct (dt_leb App2.START_DATE e); [|done].
  destruct (fetch_chunk api key _ e) as [[[|c chunk]|err] api1]; simpl;
    rewrite ?app_nil_r; done.
Qed.

Lemma horizon_run fuel api key e cs out log api' :
  App2.while_loop fuel api key e cs = Some (Ok (out, log), api') →
  horizon_trace e log
  ∧ out = cs ++ concat (map w_candles log)
  ∧ Forall (λ w, ∃ api0,
      (fetch_chunk api0 key (w_start w) (w_end w)).1 = Ok (w_candles w)) log.
Proof.
  revert api e cs out log api'.
  induction fuel as [|fuel IH]; intros api e cs out log api'; [done|].
  rewrite horizon_unfold.
  destruct (dt_leb App2.START_DATE e) eqn:He.
  2:{ intros; simplify_eq. split; [|by simpl; rewrite app_nil_r].
      constructor. by rewrite <- dt_leb_le, He. }
  apply dt_leb_le in He. cbn zeta.
  destruct (fetch_chunk api key _ e).1 as [chunk|err] eqn:Hfetch; [|done].
  destruct (dt_leb _ App2.START_DATE) eqn:Hs.
  - apply dt_leb_le in Hs. intros; simplify_eq.
    split; [by constructor|]. split; [by simpl; rewrite app_nil_r|].
    repeat constructor. by exists api.
  - intros (log' & -> & Hrec)%logged_Some.
    apply IH in Hrec as (Htr & -> & Hall).
    split; [constructor; [done| |done]|].
    { by rewrite <- dt_leb_le, Hs. }
    split; [by rewrite <- app_assoc|].
    constructor; [by exists api|done].
Qed.

Lemma horizon_fuel_mono fuel fuel' api key e cs r :
  (fuel ≤ fuel')%nat →
  App2.while_loop fuel api key e cs = Some r →
  App2.while_loop fuel' api key e cs = Some r.
Proof.
  revert fuel' api e cs r.
  induction fuel as [|fuel IH]; intros fuel' api e cs r Hle; [done|].
  destruct fuel' as [|fuel']; [lia|].
  rewrite !horizon_unfold.
  destruct (dt_leb App2.START_DATE e); [|done]. cbn zeta.
  destruct (fetch_chunk api key _ e).1 as [chunk|err]; [|done].
  destruct (dt_leb _ App2.START_DATE); [done|].
  destruct (App2.while_loop fuel _ key _ _) as [r1|] eqn:Hr; [|done].
  by rewrite (IH fuel' _ _ _ r1) by (done || lia).
Qed.

(** The loop finishes: every window ends 1096 days before the previous
    one, and none is fetched for an end before the floor. *)
Lemma horizon_terminates (n : nat) api key e cs :
  toordinal e < 733773 + 1096 * Z.of_nat n →
  ∃ out log api',
    App2.while_loop (S n) api key e cs = Some (Ok (out, log), api')
    ∧ (length log ≤ n)%nat.
Proof.
  revert api e cs. induction n as [|n IH]; intros api e cs Hord;
    rewrite horizon_unfold.
  - destruct (dt_leb App2.START_DATE e) eqn:He.
    { apply dt_leb_le, START_DATE_le in He. lia. }
    by eexists _, _, _.
  - destruct (dt_leb App2.START_DATE e) eqn:He;
      [|eexists _, _, _; split; [done|simpl; lia]].
    apply dt_leb_le in He. cbn zeta.
    destruct (clamped_start e He) as (_ & _ & _ & Hunclamped).
    set (s := dt_max (sub_days e CHUNK_SIZE_DAYS) App2.START_DATE) in *.
    destruct (fetch_chunk_ok api key s e) as [chunk ->].
    destruct (dt_leb s App2.START_DATE) eqn:Hs;
      [eexists _, _, _; split; [done|simpl; lia]|].
    assert (¬ dt_le s App2.START_DATE) as Hs'.
    { by rewrite <- dt_leb_le, Hs. }
    destruct (IH (fetch_chunk api key s e).2 (sub_days s 1) (cs ++ chunk))
      as (out & log & api' & -> & ?).
    { rewrite (Hunclamped Hs'). unfold CHUNK_SIZE_DAYS; simpl. lia. }
    eexists _, _, _. split; [done|simpl; lia].
Qed.

Lemma horizon_finishes api key now :
  ∃ out log api', ∀ fuel, (horizon_fuel now ≤ fuel)%nat →
    App2.while_loop fuel api key now [] = Some (Ok (out, log), api').
Proof.
  destruct (horizon_terminates
              (Z.to_nat (Z.max 0 ((toordinal now - 733773) `div` 1096 + 1)))
              api key now []) as (out & log & api' & Hrun & _).
  { pose proof (Z.div_mod (toordinal now - 733773) 1096 ltac:(lia)).
    pose proof (Z.mod_pos_bound (toordinal now - 733773) 1096 ltac:(lia)). lia. }
  exists out, log, api'. intros fuel Hle.
  by eapply horizon_fuel_mono.
Qed.

(** C2: the loop of [app2.py] finishes for every fetcher, and in its log
    every window starts at the later of the floor 2010-01-01 and 1095 days
    before its end; the first window ends at [now] and every other one the
    day before the start of the window fetched before it; a window is the
    last one exactly when its start date is the floor date, whether or not
    it or any other window came back empty; and every day from the floor
    date to the date of [now] lies in some window. *)
Theorem fixed_horizon_covers api key now :
  ∃ all_candles log api',
    (∀ fuel, (horizon_fuel now ≤ fuel)%nat →
       App2.while_loop fuel api key now []
       = Some (Ok (all_candles, log), api'))
    ∧ all_candles = concat (map w_candles log)
    ∧ Forall (λ w, ∃ api0,
        (fetch_chunk api0 key (w_start w) (w_end w)).1 = Ok (w_candles w)) log
    ∧ (∀ pre w post, log = pre ++ w :: post →
        w_start w = dt_max (sub_days (w_end w) CHUNK_SIZE_DAYS) App2.START_DATE
        ∧ dt_le App2.START_DATE (w_start w)
        ∧ dt_le (w_start w) (w_end w)
        ∧ w_end w = from_option (λ p, sub_days (w_start p) 1) now (last pre)
        ∧ (post = [] ↔ toordinal (w_start w) = toordinal App2.START_DATE))
    ∧ (∀ d, toordinal App2.START_DATE <= d <= toordinal now →
        ∃ w, w ∈ log ∧ toordinal (w_start w) <= d <= toordinal (w_end w)).
Proof.
  destruct (horizon_finishes api key now) as (out & log & api' & Hrun).
  exists out, log, api'. split; [done|].
  destruct (horizon_run _ _ _ _ _ _ _ _ (Hrun _ (le_n _))) as (Htr & Hout & Hall).
  split; [done|]. split; [done|]. split.
  - intros pre w post Hlog.
    destruct (horizon_trace_split _ _ _ _ _ Htr Hlog) as (Hs & He & Hend & Hlast).
    destruct (clamped_start _ He) as (? & ? & _).
    rewrite Hs at 2 3. done.
  - intros d Hd. by eapply horizon_trace_covers.
Qed.
End horizon.

Example horizon_windows :
  match App2.while_loop (remote := throttled_api) 7 () "NSE_EQ|X" sample_now [] with
  | Some (Ok (cs, log), _) =>
    (map (λ w, (strftime_Ymd (w_start w), strftime_Ymd (w_end w))) log, cs)
  | _ => ([], [])
  end
  = ([(mk_ymd 2021 6 16, mk_ymd 2024 6 15);
      (mk_ymd 2018 6 16, mk_ymd 2021 6 15);
      (mk_ymd 2015 6 16, mk_ymd 2018 6 15);
      (mk_ymd 2012 6 15, mk_ymd 2015 6 15);
      (mk_ymd 2010 1 1, mk_ymd 2012 6 14)], []).
Proof. vm_compute. reflexivity. Qed.

Lemma fixed_horizon_covers_witness :
  ∃ all_candles pre w w' post,
    App2.while_loop (remote := throttled_api) (horizon_fuel sample_now) ()
      "NSE_EQ|X" sample_now []
    = Some (Ok (all_candles, pre ++ w :: w' :: post), ())
    ∧ (w_candles w = [] ∧ w_end w' = sub_days (w_start w) 1 ∧ post ≠ [])
    ∧ (toordinal App2.START_DATE <= Calendar.ymd2ord 2015 1 1 <= toordinal sample_now
       ∧ ∃ v, v ∈ pre ++ w :: w' :: post
           ∧ toordinal (w_start v) <= Calendar.ymd2ord 2015 1 1 <= toordinal (w_end v)).
Proof.
  destruct (fixed_horizon_covers (remote := throttled_api) ()
              "NSE_EQ|X" sample_now) as (cs & log & api' & Hrun & _ & Hall & Hlog & Hcov).
  pose proof (Hrun _ (le_n _)) as Hrun0.
  vm_compute in Hrun0. injection Hrun0 as <- <- <-.
  assert (toordinal App2.START_DATE <= Calendar.ymd2ord 2015 1 1
          <= toordinal sample_now) as Hday by (by vm_compute).
  lazymatch type of Hall with
  | Forall _ (?w1 :: ?w2 :: ?w3 :: ?rest) =>
    eexists; exists [w1], w2, w3, rest;
    destruct (Hlog [w1; w2] w3 rest eq_refl) as (_ & _ & _ & Hend & Hlast)
  end.
  split; [by vm_compute|]. split.
  - split; [reflexivity|]. split; [exact Hend|].
    intros Hnil. apply Hlast in Hnil. by vm_compute in Hnil.
  - split; [exact Hday|]. exact (Hcov _ Hday).
Defined.

(** ** Shared window boundaries in [app.py] *)

Lemma NoDup_Date_process_data symbol all_candles :
  NoDup (map Date (App.process_data symbol all_candles).2).
Proof.
  unfold App.process_data. destruct all_candles; [constructor|].
  apply drop_duplicates_seen_NoDup.
Qed.

(** C10: in the log of the loop of [app.py], for every fetcher, the end of
    each window after the first is the start of the window before it, so
    both ask for that calendar date; with a fetcher that gives one candle on
    the first and one on the last day of each window, no window holds a date
    twice and yet [all_candles] does; the frame built from any [all_candles]
    holds no date twice. *)
Theorem adaptive_boundary_shared :
  (∀ (Api : Type) (remote : HistoryV3Api Api) (api : Api) key now,
     ∃ all_candles log api',
       (∀ fuel, (adaptive_fuel now ≤ fuel)%nat →
          App.while_loop fuel api key now []
          = Some (Ok (all_candles, log), api'))
       ∧ all_candles = concat (map w_candles log)
       ∧ ∀ pre w w' post, log = pre ++ w :: w' :: post →
           w_end w' = w_start w
           ∧ strftime_Ymd (w_end w') = strftime_Ymd (w_start w))
  ∧ (∃ all_candles log,
       App.while_loop (remote := boundary_api) (adaptive_fuel sample_now) ()
         "NSE_EQ|X" sample_now []
       = Some (Ok (all_candles, log), ())
       ∧ Forall (λ w, NoDup (map raw_wall (w_candles w))) log
       ∧ ¬ NoDup (map raw_wall all_candles)
       ∧ ¬ NoDup (map Date (sort_values dt_le Date (map format_row all_candles)))
       ∧ NoDup (map Date (App.process_data "X" all_candles).2))
  ∧ (∀ symbol all_candles,
       NoDup (map Date (App.process_data symbol all_candles).2)).
Proof.
  split; [|split].
  - intros Api remote api key now.
    destruct (adaptive_finishes api key now) as (out & log & api' & Hrun).
    exists out, log, api'. split; [done|].
    destruct (adaptive_run _ _ _ _ _ _ _ _ (Hrun _ (le_n _))) as (Htr & Hout & _).
    split; [done|]. intros pre w w' post Hlog.
    destruct (adaptive_trace_split _ _ (pre ++ [w]) w' post Htr) as (_ & _ & Hend & _).
    { by rewrite <- app_assoc. }
    rewrite last_snoc in Hend. simpl in Hend. by rewrite Hend.
  - eexists _, _. split; [by vm_compute|].
    split; [|split; [|split]].
    + apply (bool_decide_unpack _). by vm_compute.
    + apply (bool_decide_unpack _). by vm_compute.
    + apply (bool_decide_unpack _). by vm_compute.
    + apply NoDup_Date_process_data.
  - apply NoDup_Date_process_data.
Qed.

Lemma adaptive_boundary_shared_witness :
  ∃ all_candles w w' post,
    App.while_loop (remote := boundary_api) (adaptive_fuel sample_now) ()
      "NSE_EQ|X" sample_now []
    = Some (Ok (all_candles, w :: w' :: post), ())
    ∧ w_end w' = w_start w
    ∧ strftime_Ymd (w_end w') = mk_ymd 2021 6 16
    ∧ strftime_Ymd (w_start w) = mk_ymd 2021 6 16.
Proof.
  destruct (proj1 adaptive_boundary_shared unit boundary_api ()
              "NSE_EQ|X" sample_now) as (cs & log & api' & Hrun & Hcs & Hlog).
  pose proof (Hrun _ (le_n _)) as Hrun0.
  vm_compute in Hrun0. injection Hrun0 as <- <- <-.
  lazymatch type of Hlog with
  | ∀ pre w w' post, ?w1 :: ?w2 :: ?rest = _ → _ =>
    eexists; exists w1, w2, rest;
    destruct (Hlog [] w1 w2 rest eq_refl) as [Hend _]
  end.
  split; [by vm_compute|]. split; [exact Hend|]. by vm_compute.
Defined.

(** ** The empty run *)

Section empty_run.
Context {R Acc : Type} (keep : Acc → string → list R → Acc)
  (dates : list R → list datetime).

Lemma on_completed_no_rows completed acc out :
  Forall no_rows completed →
  ∃ progress,
    foldl (on_completed keep dates) (acc, out) completed = (acc, out ++ progress)
    ∧ Forall (λ e, is_output_file e = false) progress.
Proof.
  intros Hall. revert out.
  induction Hall as [|[symbol result] completed Hno _ IH]; intros out; simpl.
  - exists []. by rewrite app_nil_r.
  - unfold no_rows in Hno; simpl in Hno.
    destruct result as [[sym [|r df]]|err]; [|done|];
      (edestruct IH as (progress & -> & Hprog);
       eexists (_ :: progress);
       split; [by rewrite <- app_assoc|by constructor]).
Qed.
End empty_run.

Lemma mapM_total {A B : Type} (f : A → option B) (g : A → B) (l : list A) :
  (∀ x, f x = Some (g x)) → mapM f l = Some (map g l).
Proof. intros Hf. induction l as [|x l IH]; simpl; [done|]. by rewrite Hf, IH. Qed.

Lemma finish_no_rows completed :
  Forall no_rows completed →
  Forall (λ e, is_output_file e = false) (App.finish completed)
  ∧ last (App.finish completed) = Some (Stdout MsgNoDataFetched).
Proof.
  intros Hall. unfold App.finish.
  destruct (on_completed_no_rows (λ d sym df, dict_set d sym df) (map Date)
              completed [] [] Hall) as (progress & -> & Hprog).
  simpl. split; [|by rewrite last_snoc].
  apply Forall_app. split; [done|by repeat constructor].
Qed.

Lemma finish2_no_rows completed :
  Forall no_rows completed →
  Forall (λ e, is_output_file e = false) (App2.finish completed)
  ∧ last (App2.finish completed) = Some (Stdout MsgNoDataFetched).
Proof.
  intros Hall. unfold App2.finish.
  destruct (on_completed_no_rows (λ acc sym df, acc ++ [df]) (map App2.long_date)
              completed [] [] Hall) as (progress & -> & Hprog).
  simpl. split; [|by rewrite last_snoc].
  apply Forall_app. split; [done|by repeat constructor].
Qed.

Section starved.
Context {Api : Type} {remote : HistoryV3Api Api}.
Hypothesis starved : ∀ api key s e, (fetch_chunk api key s e).1 = Ok [].

Lemma starved_log key (log : list window) :
  Forall (λ w, ∃ api0,
    (fetch_chunk api0 key (w_start w) (w_end w)).1 = Ok (w_candles w)) log →
  concat (map w_candles log) = [].
Proof.
  induction 1 as [|w log [api0 Hw] _ IH]; simpl; [done|].
  rewrite starved in Hw. injection Hw as Hw. by rewrite <- Hw.
Qed.

Lemma process_single_stock_starved END_DATE api symbol isin fuel :
  (adaptive_fuel END_DATE ≤ fuel)%nat →
  App.process_single_stock fuel END_DATE api symbol isin = Some (Ok (symbol, [])).
Proof.
  intros Hfuel. unfold App.process_single_stock.
  destruct (adaptive_finishes api (get_instrument_key isin) END_DATE)
    as (out & log & api' & Hrun).
  rewrite (Hrun _ Hfuel).
  destruct (adaptive_run _ _ _ _ _ _ _ _ (Hrun _ Hfuel)) as (_ & -> & Hall).
  by rewrite (starved_log _ _ Hall).
Qed.

Lemma process_single_stock2_starved END_DATE api symbol isin fuel :
  (horizon_fuel END_DATE ≤ fuel)%nat →
  App2.process_single_stock fuel END_DATE api symbol isin = Some (Ok (symbol, [])).
Proof.
  intros Hfuel. unfold App2.process_single_stock.
  destruct (horizon_finishes api (get_instrument_key isin) END_DATE)
    as (out & log & api' & Hrun).
  rewrite (Hrun _ Hfuel).
  destruct (horizon_run _ _ _ _ _ _ _ _ (Hrun _ Hfuel)) as (_ & -> & Hall).
  by rewrite (starved_log _ _ Hall).
Qed.
End starved.

(** C7: when every fetch of every symbol yields no candles, both main
    blocks run to their end: nothing is collected, the last thing printed
    is the diagnostic that no data was fetched, and no Excel or CSV file is
    written; the same holds whenever no completed future brought rows. *)
Theorem empty_run_writes_nothing {Api : Type} {remote : HistoryV3Api Api}
    (END_DATE : datetime) (stock_df : list (string * string))
    (client : string → Api) (order : list nat) :
  (∀ api key s e, (fetch_chunk api key s e).1 = Ok []) →
  (∃ events,
     (∀ fuel, (adaptive_fuel END_DATE ≤ fuel)%nat →
        App.main fuel END_DATE true stock_df client order = Some events)
     ∧ Forall (λ e, is_output_file e = false) events
     ∧ last events = Some (Stdout MsgNoDataFetched))
  ∧ (∃ events,
       (∀ fuel, (horizon_fuel END_DATE ≤ fuel)%nat →
          App2.main fuel END_DATE true stock_df client order = Some events)
       ∧ Forall (λ e, is_output_file e = false) events
       ∧ last events = Some (Stdout MsgNoDataFetched))
  ∧ (∀ completed, Forall no_rows completed →
       App.save (foldl (on_completed (λ d sym df, dict_set d sym df) (map Date))
                   ([], []) completed).1
       = [Stdout MsgNoDataFetched])
  ∧ (∀ completed, Forall no_rows completed →
       App2.save (foldl (on_completed (λ acc sym df, acc ++ [df])
                           (map App2.long_date)) ([], []) completed).1
       = [Stdout MsgNoDataFetched]).
Proof.
  intros starved.
  set (empty := λ (R : Type) (item : string * string),
                  (item.1, Ok (item.1, @nil R))).
  set (items := omap (λ i, to_dict stock_df !! i) order).
  assert (∀ R, Forall no_rows (map (empty R) items)) as Hno.
  { intros R. apply Forall_fmap, Forall_true. by intros []. }
  split; [|split; [|split]].
  - exists ([Stdout MsgStarting;
             Stdout (MsgFetching (length (to_dict stock_df)) MAX_WORKERS);
             Stdout MsgSettings] ++ App.finish (map (empty row) items)).
    destruct (finish_no_rows _ (Hno row)) as [Hfiles Hlast].
    split; [|split].
    + intros fuel Hfuel. unfold App.main; cbn [negb]. fold items.
      rewrite (mapM_total _ (empty row)); [done|].
      intros item. by rewrite process_single_stock_starved.
    + apply Forall_app. split; [by repeat constructor|done].
    + destruct (App.finish _) as [|ev evs] eqn:Hev using rev_ind; [done|].
      by rewrite app_assoc, last_snoc in *.
  - exists ([Stdout MsgStarting;
             Stdout (MsgFetching (length (to_dict stock_df)) MAX_WORKERS);
             Stdout MsgSettings] ++ App2.finish (map (empty long_row) items)).
    destruct (finish2_no_rows _ (Hno long_row)) as [Hfiles Hlast].
    split; [|split].
    + intros fuel Hfuel. unfold App2.main; cbn [negb]. fold items.
      rewrite (mapM_total _ (empty long_row)); [done|].
      intros item. by rewrite process_single_stock2_starved.
    + apply Forall_app. split; [by repeat constructor|done].
    + destruct (App2.finish _) as [|ev evs] eqn:Hev using rev_ind; [done|].
      by rewrite app_assoc, last_snoc in *.
  - intros completed Hall.
    by destruct (on_completed_no_rows (λ d sym df, dict_set d sym df) (map Date)
                   completed [] [] Hall) as (progress & -> & _).
  - intros completed Hall.
    by destruct (on_completed_no_rows (λ acc sym df, acc ++ [df])
                   (map App2.long_date) completed [] [] Hall) as (progress & -> & _).
Qed.

Example throttled_run :
  App.main (remote := throttled_api) 20 sample_now true sample_roster (λ _, ())
    [1; 0]%nat
  = Some [Stdout MsgStarting; Stdout (MsgFetching 2 4); Stdout MsgSettings;
          Stdout (MsgNoData "TCS"); Stdout (MsgNoData "RELIANCE");
          Stdout MsgNoDataFetched].
Proof. vm_compute. reflexivity. Qed.

Example missing_input :
  App2.main (remote := throttled_api) 20 sample_now false sample_roster (λ _, ())
    [0; 1]%nat
  = Some [Stdout MsgStarting; Stdout (MsgInputNotFound "Stock.csv")].
Proof. reflexivity. Qed.

Lemma empty_run_writes_nothing_witness :
  (∀ api key s e, (fetch_chunk (remote := throttled_api) api key s e).1 = Ok [])
  ∧ ∃ events,
      (∀ fuel, (adaptive_fuel sample_now ≤ fuel)%nat →
         App.main (remote := throttled_api) fuel sample_now true sample_roster
           (λ _, ()) [1; 0]%nat = Some events)
      ∧ Forall (λ e, is_output_file e = false) events
      ∧ last events = Some (Stdout MsgNoDataFetched).
Proof.
  split; [reflexivity|].
  exact (proj1 (empty_run_writes_nothing (remote := throttled_api) sample_now
                  sample_roster (λ _, ()) [1; 0]%nat
                  (λ _ _ _ _, eq_refl))).
Defined.

(** * Further properties of the two scripts *)

(** ** Windows of the adaptive-stop loop *)

Lemma year_ge_1997 d : 1997 <= year d <-> 729025 <= toordinal d.
Proof. year_threshold. Qed.

Lemma adaptive_trace_windows e log :
  adaptive_trace e log →
  Forall (λ w, toordinal (w_end w) - toordinal (w_start w) = 1095
               ∧ time_of_day (w_start w) = time_of_day (w_end w)
               ∧ 2000 <= year (w_end w) ∧ 1997 <= year (w_start w)
               ∧ toordinal (w_end w) <= toordinal e) log.
Proof.
  assert (∀ e, 2000 <= year e → 1997 <= year (sub_days e CHUNK_SIZE_DAYS)) as Hyear.
  { intros e0 He. apply year_ge_2000 in He. apply year_ge_1997.
    unfold CHUNK_SIZE_DAYS; simpl. lia. }
  induction 1 as [e|e ? ?|e chunk log ? Hgo Htr IH]; [constructor| |].
  - repeat constructor; simpl; auto; unfold CHUNK_SIZE_DAYS; lia.
  - constructor.
    + simpl. repeat split; auto; unfold CHUNK_SIZE_DAYS; lia.
    + eapply Forall_impl; [exact IH|]. simpl. unfold CHUNK_SIZE_DAYS.
      intros w (? & ? & ? & ? & ?). repeat split; auto. lia.
Qed.

Section adaptive_windows.
Context {Api : Type} {remote : HistoryV3Api Api}.

(** The canonical run of the loop, with the bound on its log that the
    termination argument gives. *)
Lemma adaptive_finishes_bounded api key now :
  ∃ out log api',
    (∀ fuel, (adaptive_fuel now ≤ fuel)%nat →
       App.while_loop fuel api key now [] = Some (Ok (out, log), api'))
    ∧ adaptive_trace now log
    ∧ (S (length log) ≤ adaptive_fuel now)%nat.
Proof.
  destruct (adaptive_terminates
              (Z.to_nat (Z.max 0 ((toordinal now - 730120) `div` 1095 + 1)))
              api key now []) as (out & log & api' & Hrun & Hlen).
  { pose proof (Z.div_mod (toordinal now - 730120) 1095 ltac:(lia)).
    pose proof (Z.mod_pos_bound (toordinal now - 730120) 1095 ltac:(lia)). lia. }
  exists out, log, api'. split; [|split].
  - intros fuel Hle. by eapply adaptive_fuel_mono.
  - by apply adaptive_run in Hrun as [? _].
  - unfold adaptive_fuel. lia.
Qed.

(** X1: for every fetcher the loop of [app.py] fetches at most
    [(ordinal(now) - ordinal(2000-01-01)) / 1095 + 1] windows, and none when
    [now] is before 2000; every window spans exactly 1095 days, ends in 2000
    or later and not after [now], and starts in 1997 or later. *)
Theorem adaptive_windows_bounded api key now :
  ∃ all_candles log api',
    (∀ fuel, (adaptive_fuel now ≤ fuel)%nat →
       App.while_loop fuel api key now [] = Some (Ok (all_candles, log), api'))
    ∧ (Z.of_nat (length log)
       <= Z.max 0 ((toordinal now - 730120) `div` 1095 + 1))
    ∧ (log = [] ↔ year now < 2000)
    ∧ Forall (λ w, toordinal (w_end w) - toordinal (w_start w) = 1095
                   ∧ time_of_day (w_start w) = time_of_day (w_end w)
                   ∧ 2000 <= year (w_end w) ∧ 1997 <= year (w_start w)
                   ∧ toordinal (w_end w) <= toordinal now) log.
Proof.
  destruct (adaptive_finishes_bounded api key now)
    as (out & log & api' & Hrun & Htr & Hlen).
  exists out, log, api'. split; [done|]. split; [|split].
  - unfold adaptive_fuel in Hlen. lia.
  - by apply adaptive_trace_nil.
  - by apply adaptive_trace_windows.
Qed.

(** X2: in the log of the loop of [app.py], for every fetcher, a window is
    the last one exactly when it came back empty with an end year before
    2010 or its start year is before 2000; so a window that brought candles
    is followed by another one as long as its start is in 2000 or later. *)
Theorem adaptive_stop_rule api key now :
  ∃ all_candles log api',
    (∀ fuel, (adaptive_fuel now ≤ fuel)%nat →
       App.while_loop fuel api key now [] = Some (Ok (all_candles, log), api'))
    ∧ ∀ pre w post, log = pre ++ w :: post →
        (post = [] ↔
           (w_candles w = [] ∧ year (w_end w) < 2010) ∨ year (w_start w) < 2000)
        ∧ (w_candles w ≠ [] → (post = [] ↔ year (w_start w) < 2000)).
Proof.
  destruct (adaptive_finishes_bounded api key now)
    as (out & log & api' & Hrun & Htr & _).
  exists out, log, api'. split; [done|]. intros pre w post Hlog.
  destruct (adaptive_trace_split _ _ _ _ _ Htr Hlog)
    as (_ & _ & _ & Hlast & Hbreak & Hold).
  split.
  - split; [done|]. intros [[? ?]|?]; auto.
  - intros Hdata. split; [|done].
    intros [[? _]|?]%Hlast; done.
Qed.
End adaptive_windows.

Lemma adaptive_stop_rule_witness :
  ∃ all_candles pre w post,
    App.while_loop (remote := boundary_api) (adaptive_fuel sample_now) ()
      "NSE_EQ|X" sample_now []
    = Some (Ok (all_candles, pre ++ w :: post), ())
    ∧ w_candles w ≠ []
    ∧ (post = [] ↔ year (w_start w) < 2000)
    ∧ year (w_start w) = 1997 ∧ length pre = 8%nat.
Proof.
  destruct (adaptive_stop_rule (remote := boundary_api) ()
              "NSE_EQ|X" sample_now) as (cs & log & api' & Hrun & Hlog).
  pose proof (Hrun _ (le_n _)) as Hrun0.
  vm_compute in Hrun0. injection Hrun0 as <- <- <-.
  assert (Hne : ∀ (c : raw_candle) cs, c :: cs ≠ []) by done.
  lazymatch type of Hlog with
  | ∀ pre w post,
      ?w1 :: ?w2 :: ?w3 :: ?w4 :: ?w5 :: ?w6 :: ?w7 :: ?w8 :: ?w9 :: ?rest = _ → _ =>
    eexists; exists [w1; w2; w3; w4; w5; w6; w7; w8], w9, rest;
    destruct (Hlog [w1; w2; w3; w4; w5; w6; w7; w8] w9 rest eq_refl)
      as [_ Hdata]
  end.
  split; [by vm_compute|]. split; [apply Hne|].
  split; [exact (Hdata (Hne _ _))|]. split; by vm_compute.
Defined.

(** ** Windows of the fixed-horizon loop *)

Lemma dt_max_ordinal a b :
  toordinal a <= toordinal (dt_max a b) ∧ toordinal b <= toordinal (dt_max a b).
Proof.
  unfold dt_max. destruct (dt_ltb a b) eqn:Hlt.
  - apply dt_ltb_nle in Hlt. unfold dt_le in Hlt. lia.
  - destruct (decide (dt_le b a)) as [Hle|Hn].
    + unfold dt_le in Hle. lia.
    + apply dt_ltb_nle in Hn. congruence.
Qed.

Lemma clamped_span e :
  dt_le App2.START_DATE e →
  0 <= toordinal e
       - toordinal (dt_max (sub_days e CHUNK_SIZE_DAYS) App2.START_DATE) <= 1095.
Proof.
  intros He. destruct (clamped_start e He) as (_ & Hse & _).
  destruct (dt_max_ordinal (sub_days e CHUNK_SIZE_DAYS) App2.START_DATE) as [Hlo _].
  unfold dt_le in Hse. unfold CHUNK_SIZE_DAYS in *; simpl in *. lia.
Qed.

Lemma horizon_trace_windows e log :
  horizon_trace e log →
  Forall (λ w, 0 <= toordinal (w_end w) - toordinal (w_start w) <= 1095
               ∧ toordinal (w_end w) <= toordinal e) log.
Proof.
  induction 1 as [e He|e chunk He Hs|e chunk log He Hs Htr IH]; [constructor| |].
  - constructor; [|constructor]. simpl. split; [by apply clamped_span|lia].
  - pose proof (clamped_span e He) as Hspan. constructor.
    + simpl. split; [done|lia].
    + eapply Forall_impl; [exact IH|]. simpl. intros w [? ?]. split; [done|lia].
Qed.

(** What follows a window in a log is the log of the loop started the day
    before the window's start. *)
Lemma horizon_trace_suffix e pre w post :
  horizon_trace e (pre ++ w :: post) →
  horizon_trace (sub_days (w_start w) 1) post.
Proof.
  remember (pre ++ w :: post) as log eqn:Hlog. intros Htr. revert pre Hlog.
  induction Htr as [e He|e chunk He Hs|e chunk log He Hs Htr IH]; intros pre Hlog.
  - by destruct pre.
  - destruct pre as [|? [|? ?]]; simplify_eq/=.
    constructor. rewrite (proj1 (proj2 (proj2 (clamped_start e He))) Hs).
    rewrite START_DATE_le. simpl.
    change (Calendar.ymd2ord 2010 1 1) with 733773. lia.
  - destruct pre as [|w0 pre]; simplify_eq/=; [done|]. by eapply IH.
Qed.

Section horizon_windows.
Context {Api : Type} {remote : HistoryV3Api Api}.

Lemma horizon_finishes_bounded api key now :
  ∃ out log api',
    (∀ fuel, (horizon_fuel now ≤ fuel)%nat →
       App2.while_loop fuel api key now [] = Some (Ok (out, log), api'))
    ∧ horizon_trace now log
    ∧ (S (length log) ≤ horizon_fuel now)%nat.
Proof.
  destruct (horizon_terminates
              (Z.to_nat (Z.max 0 ((toordinal now - 733773) `div` 1096 + 1)))
              api key now []) as (out & log & api' & Hrun & Hlen).
  { pose proof (Z.div_mod (toordinal now - 733773) 1096 ltac:(lia)).
    pose proof (Z.mod_pos_bound (toordinal now - 733773) 1096 ltac:(lia)). lia. }
  exists out, log, api'. split; [|split].
  - intros fuel Hle. by eapply horizon_fuel_mono.
  - by apply horizon_run in Hrun as [? _].
  - unfold horizon_fuel. lia.
Qed.

(** X3: for every fetcher the loop of [app2.py] fetches at most
    [(ordinal(now) - ordinal(2010-01-01)) / 1096 + 1] windows, and none when
    [now] is before the floor; every window spans between 0 and 1095 days
    and ends not after [now]; and a window fetched later ends on a day
    strictly before the start of every window fetched earlier, so no
    calendar day is asked for twice. *)
Theorem horizon_windows_disjoint api key now :
  ∃ all_candles log api',
    (∀ fuel, (horizon_fuel now ≤ fuel)%nat →
       App2.while_loop fuel api key now [] = Some (Ok (all_candles, log), api'))
    ∧ (Z.of_nat (length log)
       <= Z.max 0 ((toordinal now - 733773) `div` 1096 + 1))
    ∧ (log = [] ↔ toordinal now < toordinal App2.START_DATE)
    ∧ Forall (λ w, 0 <= toordinal (w_end w) - toordinal (w_start w) <= 1095
                   ∧ toordinal (w_end w) <= toordinal now) log
    ∧ ∀ pre w mid w' post, log = pre ++ w :: mid ++ w' :: post →
        toordinal (w_end w') < toordinal (w_start w).
Proof.
  destruct (horizon_finishes_bounded api key now)
    as (out & log & api' & Hrun & Htr & Hlen).
  exists out, log, api'. split; [done|]. split; [|split; [|split]].
  - unfold horizon_fuel in Hlen. lia.
  - rewrite (horizon_trace_nil _ _ Htr), START_DATE_le.
    change (toordinal App2.START_DATE) with 733773. lia.
  - by apply horizon_trace_windows.
  - intros pre w mid w' post ->.
    apply horizon_trace_suffix, horizon_trace_windows in Htr.
    rewrite Forall_app, Forall_cons in Htr.
    destruct Htr as (_ & [_ Hend] & _). simpl in Hend. lia.
Qed.
End horizon_windows.

Lemma horizon_windows_disjoint_witness :
  ∃ all_candles w mid w' post,
    App2.while_loop (remote := boundary_api) (horizon_fuel sample_now) ()
      "NSE_EQ|X" sample_now []
    = Some (Ok (all_candles, w :: mid ++ w' :: post), ())
    ∧ length mid = 2%nat
    ∧ toordinal (w_end w') < toordinal (w_start w)
    ∧ NoDup (map raw_wall all_candles).
Proof.
  destruct (horizon_windows_disjoint (remote := boundary_api) ()
              "NSE_EQ|X" sample_now) as (cs & log & api' & Hrun & _ & _ & Hall & Hlog).
  pose proof (Hrun _ (le_n _)) as Hrun0.
  vm_compute in Hrun0. injection Hrun0 as <- <- <-.
  lazymatch type of Hall with
  | Forall _ (?w1 :: ?w2 :: ?w3 :: ?w4 :: ?rest) =>
    eexists; exists w1, [w2; w3], w4, rest;
    pose proof (Hlog [] w1 [w2; w3] w4 rest eq_refl) as Hlt
  end.
  split; [by vm_compute|]. split; [done|]. split; [exact Hlt|].
  apply (bool_decide_unpack _). by vm_compute.
Defined.

(** ** More on sorting and duplicate removal *)

Section normal_form.
Context {A K : Type} `{!EqDecision K} (key : A → K).

(** Rows whose keys are new and all different are all kept. *)
Lemma drop_duplicates_seen_id seen df :
  NoDup (map key df) → (∀ k, k ∈ map key df → k ∉ seen) →
  drop_duplicates_seen key seen df = df.
Proof.
  revert seen. induction df as [|r rest IH]; intros seen Hnd Hseen; simpl; [done|].
  apply NoDup_cons in Hnd as [Hr Hrest].
  destruct (decide (key r ∈ seen)) as [Hin|_].
  { exfalso. apply (Hseen (key r)); [by left|done]. }
  f_equal. apply IH; [done|].
  intros k Hk [->|?]%elem_of_cons; [done|].
  apply (Hseen k); [by right|done].
Qed.

Lemma NoDup_key_inj (l : list A) x y :
  NoDup (map key l) → x ∈ l → y ∈ l → key x = key y → x = y.
Proof.
  induction l as [|z l IH]; simpl; [by intros _ ?%elem_of_nil|].
  intros [Hz Hl]%NoDup_cons [->|Hx]%elem_of_cons [->|Hy]%elem_of_cons Hk; auto.
  - exfalso. apply Hz. rewrite Hk. by apply list_elem_of_fmap_2.
  - exfalso. apply Hz. rewrite <- Hk. by apply list_elem_of_fmap_2.
Qed.

Context (le : relation K)
  `{!RelDecision le, !Transitive le, !Total le, !AntiSymm (=) le}.

(** Sorting a frame that is already in ascending order of distinct keys
    gives the frame back. *)
Lemma sort_values_sorted_id df :
  StronglySorted (λ a b, le (key a) (key b)) df → NoDup (map key df) →
  sort_values le key df = df.
Proof.
  intros Hsorted Hnd.
  apply (StronglySorted_unique_strong (λ a b, le (key a) (key b)));
    [|by apply sort_values_sorted|done|by apply sort_values_Permutation].
  intros x y Hx Hy Hxy Hyx.
  rewrite sort_values_Permutation in Hx.
  apply (NoDup_key_inj df); [done..|]. by apply (anti_symm le).
Qed.

Lemma StronglySorted_of_keys l :
  StronglySorted le (map key l) → StronglySorted (λ a b, le (key a) (key b)) l.
Proof.
  induction l as [|x l IH]; simpl; [constructor|].
  intros [Hs Hall]%StronglySorted_inv. constructor; [by apply IH|].
  by rewrite Forall_fmap in Hall.
Qed.

(** Sorting and dropping duplicates a second time changes nothing. *)
Lemma sort_dedup_idempotent df :
  let out := drop_duplicates key (sort_values le key df) in
  drop_duplicates key (sort_values le key out) = out.
Proof.
  destruct (sort_dedup_normal key le df) as (Hnd & Hsorted & _). cbn zeta.
  rewrite sort_values_sorted_id; [|by apply StronglySorted_of_keys|done].
  by apply drop_duplicates_seen_id; [|intros ? _ ?%elem_of_nil].
Qed.

(** One row per distinct key, each taken from the frame; nothing is lost
    when the keys were distinct to begin with. *)
Lemma sort_dedup_rows df :
  let out := drop_duplicates key (sort_values le key df) in
  (∀ r, r ∈ out → r ∈ df)
  ∧ map key out ≡ₚ remove_dups (map key df)
  ∧ (NoDup (map key df) → out ≡ₚ df).
Proof.
  destruct (sort_dedup_normal key le df) as (Hnd & _ & Hkeys). cbn zeta.
  split; [|split].
  - intros r [Hr _]%drop_duplicates_seen_elem.
    by rewrite sort_values_Permutation in Hr.
  - apply NoDup_Permutation; [done|apply NoDup_remove_dups|].
    intros k. by rewrite Hkeys, elem_of_remove_dups.
  - intros Hdf. unfold drop_duplicates.
    rewrite drop_duplicates_seen_id; [apply sort_values_Permutation| |].
    + by rewrite sort_values_Permutation.
    + by intros ? _ ?%elem_of_nil.
Qed.
End normal_form.

#[global] Instance dt_le_antisymm : AntiSymm (=) dt_le.
Proof. intros a b. apply dt_le_antisym. Qed.

(** X4: normalising is idempotent: for every batch, in both scripts,
    sorting the frame built under [# Process Data] by date and dropping
    duplicate dates once more gives the same frame. *)
Theorem normalize_idempotent (symbol : string) (all_candles : list raw_candle) :
  let df := (App.process_data symbol all_candles).2 in
  let df2 := (App2.process_data symbol all_candles).2 in
  drop_duplicates Date (sort_values dt_le Date df) = df
  ∧ drop_duplicates App2.long_date (sort_values dt_le App2.long_date df2) = df2.
Proof.
  unfold App.process_data, App2.process_data.
  destruct all_candles as [|c cs]; cbn zeta; [done|]. cbn [snd]. split.
  - apply (sort_dedup_idempotent Date dt_le).
  - apply (sort_dedup_idempotent App2.long_date dt_le).
Qed.

Lemma length_remove_dups {A : Type} `{!EqDecision A} (l : list A) :
  (length (remove_dups l) ≤ length l)%nat.
Proof.
  induction l as [|x l IH]; simpl; [done|].
  destruct (decide_rel elem_of x l); simpl; lia.
Qed.

Lemma remove_dups_NoDup {A : Type} `{!EqDecision A} (l : list A) :
  NoDup l → remove_dups l = l.
Proof.
  induction 1 as [|x l Hx _ IH]; simpl; [done|].
  destruct (decide_rel elem_of x l); [done|]. by rewrite IH.
Qed.

(** X5: the frame built under [# Process Data] has, in both scripts,
    exactly one row for each distinct date of the batch, so never more rows
    than the batch has candles; when no date occurs twice in the batch the
    frame has one row for every candle, with the dates of the batch. *)
Theorem normalize_one_row_per_date
    (symbol : string) (all_candles : list raw_candle) :
  let df := (App.process_data symbol all_candles).2 in
  let df2 := (App2.process_data symbol all_candles).2 in
  map Date df ≡ₚ remove_dups (map raw_wall all_candles)
  ∧ map App2.long_date df2 ≡ₚ remove_dups (map raw_wall all_candles)
  ∧ (length df ≤ length all_candles)%nat
  ∧ (length df2 ≤ length all_candles)%nat
  ∧ (NoDup (map raw_wall all_candles) →
       map Date df ≡ₚ map raw_wall all_candles
       ∧ map App2.long_date df2 ≡ₚ map raw_wall all_candles
       ∧ length df = length all_candles
       ∧ length df2 = length all_candles).
Proof.
  cbn zeta.
  assert (map Date (App.process_data symbol all_candles).2
          ≡ₚ remove_dups (map raw_wall all_candles)) as H1.
  { unfold App.process_data. destruct all_candles as [|c cs]; [done|].
    cbn zeta. cbn [snd].
    destruct (sort_dedup_rows Date dt_le (map format_row (c :: cs))) as (_ & -> & _).
    by rewrite List.map_map. }
  assert (map App2.long_date (App2.process_data symbol all_candles).2
          ≡ₚ remove_dups (map raw_wall all_candles)) as H2.
  { unfold App2.process_data. destruct all_candles as [|c cs]; [done|].
    cbn zeta. cbn [snd].
    destruct (sort_dedup_rows App2.long_date dt_le
                (map (λ c, mk_long_row symbol (format_row c)) (c :: cs)))
      as (_ & -> & _).
    by rewrite List.map_map. }
  pose proof (length_remove_dups (map raw_wall all_candles)) as Hlen.
  pose proof (Permutation_length H1) as L1.
  pose proof (Permutation_length H2) as L2.
  rewrite !length_map in *.
  split; [done|]. split; [done|]. split; [lia|]. split; [lia|].
  intros Hnd. rewrite (remove_dups_NoDup _ Hnd) in H1, H2, L1, L2.
  rewrite !length_map in *. done.
Qed.

Lemma normalize_one_row_per_date_witness :
  NoDup (map raw_wall [candle_at (mk_ymd 2021 1 2); candle_at (mk_ymd 2021 1 1)])
  ∧ length (App.process_data "X"
              [candle_at (mk_ymd 2021 1 2); candle_at (mk_ymd 2021 1 1)]).2
    = 2%nat.
Proof.
  assert (NoDup (map raw_wall
            [candle_at (mk_ymd 2021 1 2); candle_at (mk_ymd 2021 1 1)])) as Hnd.
  { apply (bool_decide_unpack _). by vm_compute. }
  split; [exact Hnd|].
  exact (proj1 (proj2 (proj2 (proj2 (proj2 (proj2 (proj2
    (normalize_one_row_per_date "X"
       [candle_at (mk_ymd 2021 1 2); candle_at (mk_ymd 2021 1 1)])))) Hnd)))).
Defined.

(** ** One symbol from the first window to the frame *)

Lemma process_data_pair symbol all_candles :
  App.process_data symbol all_candles
  = (symbol, (App.process_data symbol all_candles).2).
Proof. by destruct all_candles. Qed.

Lemma process_data2_pair symbol all_candles :
  App2.process_data symbol all_candles
  = (symbol, (App2.process_data symbol all_candles).2).
Proof. by destruct all_candles. Qed.

Lemma process_data_dates symbol all_candles d :
  d ∈ map Date (App.process_data symbol all_candles).2
  ↔ d ∈ map raw_wall all_candles.
Proof.
  unfold App.process_data. destruct all_candles as [|c cs]; [done|].
  cbn zeta. cbn [snd].
  destruct (sort_dedup_normal Date dt_le (map format_row (c :: cs))) as (_ & _ & ->).
  by rewrite List.map_map.
Qed.

Lemma process_data2_dates symbol all_candles d :
  d ∈ map App2.long_date (App2.process_data symbol all_candles).2
  ↔ d ∈ map raw_wall all_candles.
Proof.
  unfold App2.process_data. destruct all_candles as [|c cs]; [done|].
  cbn zeta. cbn [snd].
  destruct (sort_dedup_normal App2.long_date dt_le
              (map (λ c, mk_long_row symbol (format_row c)) (c :: cs)))
    as (_ & _ & ->).
  by rewrite List.map_map.
Qed.

Lemma elem_of_map_nil {A B : Type} (f : A → B) (l : list A) :
  l = [] ↔ ∀ d, d ∉ map f l.
Proof.
  destruct l as [|x l]; simpl; split; try done.
  - intros _ d ?%elem_of_nil. done.
  - intros H. destruct (H (f x)). by left.
Qed.

Lemma concat_candles_nil (log : list window) :
  concat (map w_candles log) = [] ↔ Forall (λ w, w_candles w = []) log.
Proof.
  induction log as [|w log IH]; simpl; [by split|].
  rewrite Forall_cons, <- IH. split.
  - by intros [? ?]%app_eq_nil.
  - by intros [-> ->].
Qed.

Lemma elem_of_concat_candles (log : list window) d :
  d ∈ map raw_wall (concat (map w_candles log))
  ↔ ∃ w c, w ∈ log ∧ c ∈ w_candles w ∧ raw_wall c = d.
Proof.
  induction log as [|w log IH]; simpl.
  - split; [by intros ?%elem_of_nil|]. by intros (? & ? & ?%elem_of_nil & _).
  - rewrite map_app, elem_of_app, IH. split.
    + intros [(c & -> & Hc)%list_elem_of_fmap|(w' & c & Hw & Hc & <-)].
      * exists w, c. split; [by left|done].
      * exists w', c. split; [by right|done].
    + intros (w' & c & [->|Hw]%elem_of_cons & Hc & <-).
      * left. by apply list_elem_of_fmap_2.
      * right. by exists w', c.
Qed.

Section one_symbol.
Context {Api : Type} {remote : HistoryV3Api Api}.

(** A loop that returned with some fuel returned what the canonical run
    returns. *)
Lemma adaptive_run_unique END_DATE (api : Api) key out log api' fuel r :
  (∀ fuel, (adaptive_fuel END_DATE ≤ fuel)%nat →
     App.while_loop fuel api key END_DATE [] = Some (Ok (out, log), api')) →
  App.while_loop fuel api key END_DATE [] = Some r →
  r = (Ok (out, log), api').
Proof.
  intros Hrun Hr.
  apply (adaptive_fuel_mono fuel (fuel `max` adaptive_fuel END_DATE)) in Hr; [|lia].
  rewrite Hrun in Hr by lia. by injection Hr as <-.
Qed.


(** X6: in [process_single_stock] of [app.py] the pagination loop returns
    for every API client; when every window it fetched came back empty the
    function returns the symbol it was given with an empty frame; and
    whenever the function returns a symbol and a frame, the symbol is the
    one it was given, the frame is empty only if every window came back
    empty, and the dates of the frame are exactly the dates of the candles
    of the fetched windows. *)
Theorem process_single_stock_frame
    (END_DATE : datetime) (api : Api) (symbol isin : string) :
  ∃ all_candles log api',
    (∀ fuel, (adaptive_fuel END_DATE ≤ fuel)%nat →
       App.while_loop fuel api (get_instrument_key isin) END_DATE []
       = Some (Ok (all_candles, log), api'))
    ∧ (Forall (λ w, w_candles w = []) log →
       ∀ fuel, (adaptive_fuel END_DATE ≤ fuel)%nat →
         App.process_single_stock fuel END_DATE api symbol isin
         = Some (Ok (symbol, [])))
    ∧ (∀ fuel sym df,
         App.process_single_stock fuel END_DATE api symbol isin
         = Some (Ok (sym, df)) →
         sym = symbol
         ∧ (df = [] ↔ Forall (λ w, w_candles w = []) log)
         ∧ (∀ d, d ∈ map Date df
                 ↔ ∃ w c, w ∈ log ∧ c ∈ w_candles w ∧ raw_wall c = d)).
Proof.
  destruct (adaptive_finishes api (get_instrument_key isin) END_DATE)
    as (out & log & api' & Hrun).
  destruct (adaptive_run _ _ _ _ _ _ _ _ (Hrun _ (le_n _))) as (_ & Hout & _).
  simpl in Hout. exists out, log, api'. split; [done|]. split.
  - intros Hempty%concat_candles_nil fuel Hfuel.
    unfold App.process_single_stock. rewrite (Hrun _ Hfuel).
    by rewrite Hout, Hempty.
  - intros fuel sym df. unfold App.process_single_stock.
    destruct (App.while_loop fuel api _ END_DATE []) as [r|] eqn:Hr; [|done].
    rewrite (adaptive_run_unique _ _ _ _ _ _ _ _ Hrun Hr).
    rewrite (process_data_pair symbol out). intros [= <- <-].
    split; [done|]. subst out. split.
    + rewrite <- concat_candles_nil, (elem_of_map_nil Date),
        (elem_of_map_nil raw_wall).
      by setoid_rewrite process_data_dates.
    + intros d. by rewrite process_data_dates, elem_of_concat_candles.
Qed.

End one_symbol.

Lemma process_single_stock_frame_witness :
  App.process_single_stock (remote := throttled_api) (adaptive_fuel sample_now)
    sample_now () "RELIANCE" "INE002A01018"
  = Some (Ok ("RELIANCE", []))
  ∧ ∃ df,
      App.process_single_stock (remote := boundary_api) (adaptive_fuel sample_now)
        sample_now () "RELIANCE" "INE002A01018"
      = Some (Ok ("RELIANCE", df))
      ∧ df ≠ [] ∧ length df = 10%nat.
Proof.
  split.
  - destruct (process_single_stock_frame (remote := throttled_api) sample_now ()
                "RELIANCE" "INE002A01018") as (cs & log & api' & Hrun & Hempty & _).
    pose proof (Hrun _ (le_n _)) as Hrun0.
    vm_compute in Hrun0. injection Hrun0 as <- <- <-.
    apply Hempty; [|done]. by repeat constructor.
  - eexists. split; [by vm_compute|].
    destruct (process_single_stock_frame (remote := boundary_api) sample_now ()
                "RELIANCE" "INE002A01018") as (cs & log & api' & Hrun & _ & Hret).
    pose proof (Hrun _ (le_n _)) as Hrun0.
    vm_compute in Hrun0. injection Hrun0 as <- <- <-.
    split; [|by vm_compute].
    intros Hnil.
    lazymatch goal with
    | Hnil : ?df = [] |- _ =>
      destruct (Hret (adaptive_fuel sample_now) "RELIANCE" df) as (_ & Hiff & _);
        [by vm_compute|]
    end.
    apply Hiff in Hnil. by apply Forall_cons in Hnil as [? _].
Defined.


(** ** Whitespace around the identifier *)

Lemma lstrip_all_space p s : all_space p = true → lstrip (p +:+ s) = lstrip s.
Proof.
  induction p as [|c p IH]; simpl; [done|].
  intros [-> ?]%andb_true_iff. auto.
Qed.

Lemma lstrip_head s c r : lstrip s = String c r → is_space c = false.
Proof.
  induction s as [|c' s IH]; simpl; [done|].
  destruct (is_space c') eqn:Hc; [done|]. by intros [= <- <-].
Qed.

Lemma lstrip_nonspace c r : is_space c = false → lstrip (String c r) = String c r.
Proof. simpl. by intros ->. Qed.

Lemma rstrip_nonspace c r :
  is_space c = false → rstrip (String c r) = String c (rstrip r).
Proof. simpl. intros ->. by destruct (rstrip r). Qed.

Lemma rstrip_all_space p : all_space p = true → rstrip p = "".
Proof.
  induction p as [|c p IH]; simpl; [done|].
  intros [-> ->%IH]%andb_true_iff. done.
Qed.

Lemma rstrip_empty s : rstrip s = "" → all_space s = true.
Proof.
  induction s as [|c s IH]; simpl; [done|].
  destruct (rstrip s) eqn:Hs; [|done].
  destruct (is_space c); [|done]. intros _. by rewrite IH.
Qed.

Lemma rstrip_append s p : all_space p = true → rstrip (s +:+ p) = rstrip s.
Proof.
  intros Hp. induction s as [|c s IH]; simpl; [by apply rstrip_all_space|].
  by rewrite IH.
Qed.

Lemma rstrip_cons c rest :
  rstrip (String c rest)
  = match rstrip rest with
    | EmptyString => if is_space c then EmptyString else String c EmptyString
    | rest' => String c rest'
    end.
Proof. reflexivity. Qed.

Lemma rstrip_idemp s : rstrip (rstrip s) = rstrip s.
Proof.
  induction s as [|c s IH]; [done|].
  rewrite (rstrip_cons c s).
  destruct (rstrip s) as [|c' s'] eqn:Hs.
  - destruct (is_space c) eqn:Hc; [done|].
    by rewrite rstrip_cons, Hc.
  - by rewrite rstrip_cons, IH.
Qed.

Lemma lstrip_append s p :
  all_space s = false → lstrip (s +:+ p) = lstrip s +:+ p.
Proof.
  induction s as [|c s IH]; simpl; [done|].
  destruct (is_space c); simpl; [done|]. done.
Qed.

Lemma lstrip_all_space_nil s : all_space s = true → lstrip s = "".
Proof.
  induction s as [|c s IH]; simpl; [done|]. by intros [-> ?]%andb_true_iff; auto.
Qed.

Lemma all_space_append s p :
  all_space (s +:+ p) = all_space s && all_space p.
Proof. induction s as [|c s IH]; simpl; [done|]. by rewrite IH, andb_assoc. Qed.

Lemma strip_empty_iff s : strip s = "" ↔ all_space s = true.
Proof.
  unfold strip. split.
  - intros Hs%rstrip_empty.
    induction s as [|c s IH]; simpl in *; [done|].
    destruct (is_space c) eqn:Hc; simpl in *; [auto|].
    by rewrite Hc in Hs.
  - intros Hs. by rewrite lstrip_all_space_nil.
Qed.

Lemma strip_idemp s : strip (strip s) = strip s.
Proof.
  unfold strip. destruct (lstrip s) as [|c r] eqn:Hl; [done|].
  pose proof (lstrip_head _ _ _ Hl) as Hc.
  rewrite (rstrip_nonspace c r Hc), (lstrip_nonspace _ _ Hc).
  by rewrite (rstrip_nonspace _ _ Hc), rstrip_idemp.
Qed.

Lemma strip_padded p s q :
  all_space p = true → all_space q = true → strip (p +:+ s +:+ q) = strip s.
Proof.
  intros Hp Hq. unfold strip. rewrite (lstrip_all_space p _ Hp).
  destruct (all_space s) eqn:Hs.
  - rewrite !lstrip_all_space_nil; [done..|].
    by rewrite all_space_append, Hs, Hq.
  - by rewrite (lstrip_append _ _ Hs), rstrip_append.
Qed.

Example strip_controls :
  strip (String (ascii_of_nat 28) (String (ascii_of_nat 160) "A B"
           +:+ String (ascii_of_nat 133) (String (ascii_of_nat 11) "")))
  = "A B".
Proof. reflexivity. Qed.

(** X8: [get_instrument_key] ignores whitespace around the identifier and
    only there: padding an identifier with whitespace on either side gives
    the same key, the key of an already-trimmed identifier is the key of the
    identifier, and the key is the bare prefix [NSE_EQ|] exactly when the
    identifier is empty or all whitespace (such identifiers are not
    rejected). *)
Theorem get_instrument_key_whitespace (p isin q : string) :
  (all_space p = true → all_space q = true →
   get_instrument_key (p +:+ isin +:+ q) = get_instrument_key isin)
  ∧ get_instrument_key (strip isin) = get_instrument_key isin
  ∧ (get_instrument_key isin = EXCHANGE_PREFIX ↔ all_space isin = true).
Proof.
  unfold get_instrument_key. split; [|split].
  - intros Hp Hq. by rewrite strip_padded.
  - by rewrite strip_idemp.
  - rewrite <- strip_empty_iff. split.
    + intros Heq. apply (inj (String.app EXCHANGE_PREFIX)). by rewrite Heq.
    + by intros ->.
Qed.

Lemma get_instrument_key_whitespace_witness :
  all_space "  " = true ∧ all_space "
" = true
  ∧ get_instrument_key ("  " +:+ "INE 002A01018" +:+ "
")
    = get_instrument_key "INE 002A01018"
  ∧ get_instrument_key "INE 002A01018" = "NSE_EQ|INE 002A01018".
Proof.
  split; [reflexivity|]. split; [reflexivity|]. split; [|reflexivity].
  exact (proj1 (get_instrument_key_whitespace "  " "INE 002A01018" "
") eq_refl eq_refl).
Defined.

(** ** More on sheet names *)

Lemma replace_hit old s : replace old "" (String old s) = replace old "" s.
Proof. simpl. by rewrite Ascii.eqb_refl. Qed.

Lemma replace_miss old c s :
  Ascii.eqb c old = false →
  replace old "" (String c s) = String c (replace old "" s).
Proof. simpl. by intros ->. Qed.

Lemma slice_to_empty n s : slice_to (S n) s = "" ↔ s = "".
Proof. unfold slice_to. by destruct s. Qed.

Lemma stripped_empty s :
  replace "/" "" (replace ":" "" (replace "|" "" s)) = ""
  ↔ only_separators s = true.
Proof.
  induction s as [|c s IH]; [done|].
  cbn [only_separators].
  destruct (Ascii.eqb c "|") eqn:H1.
  { apply Ascii.eqb_eq in H1 as ->. by rewrite replace_hit. }
  rewrite (replace_miss "|" c _ H1).
  destruct (Ascii.eqb c ":") eqn:H2.
  { apply Ascii.eqb_eq in H2 as ->. by rewrite replace_hit. }
  rewrite (replace_miss ":" c _ H2).
  destruct (Ascii.eqb c "/") eqn:H3.
  { apply Ascii.eqb_eq in H3 as ->. by rewrite replace_hit. }
  rewrite (replace_miss "/" c _ H3). done.
Qed.

Example safe_name_of_separators : App.safe_name "|/:|" = "".
Proof. reflexivity. Qed.

(** X9: sanitising a sheet name again changes nothing, and the sheet name
    is empty exactly when the symbol is empty or made of the characters
    ['|'], [':'], ['/'] only. *)
Theorem safe_name_idempotent (symbol : string) :
  App.safe_name (App.safe_name symbol) = App.safe_name symbol
  ∧ (App.safe_name symbol = "" ↔ only_separators symbol = true).
Proof.
  split.
  - apply safe_name_id; [apply safe_name_separator_free|apply length_slice_to].
  - unfold App.safe_name. by rewrite slice_to_empty, stripped_empty.
Qed.

(** ** The roster as a dict *)

Section dict.
Context {V : Type}.
Implicit Types (d : list (string * V)) (k : string) (v : V).

Lemma dict_set_keys d k v :
  map fst (dict_set d k v)
  = if decide (k ∈ map fst d) then map fst d else map fst d ++ [k].
Proof.
  induction d as [|[k' v'] d IH]; [done|]. cbn [dict_set].
  destruct (decide (k' = k)) as [->|Hne]; cbn [map fst].
  - by rewrite decide_True by (by left).
  - rewrite IH. destruct (decide (k ∈ map fst d)) as [Hin|Hnin].
    + by rewrite decide_True by (by right).
    + rewrite decide_False; [done|].
      by intros [->|?]%elem_of_cons.
Qed.

Lemma dict_set_NoDup d k v :
  NoDup (map fst d) → NoDup (map fst (dict_set d k v)).
Proof.
  intros Hnd. rewrite dict_set_keys. destruct (decide _) as [|Hnin]; [done|].
  apply NoDup_app. split; [done|]. split; [|apply NoDup_singleton].
  by intros x Hx ->%list_elem_of_singleton.
Qed.

Lemma dict_set_elem d k v k' v' :
  NoDup (map fst d) →
  (k', v') ∈ dict_set d k v ↔ (k' = k ∧ v' = v) ∨ (k' ≠ k ∧ (k', v') ∈ d).
Proof.
  induction d as [|[k0 v0] d IH]; simpl.
  - intros _. rewrite list_elem_of_singleton. split.
    + intros [= -> ->]. by left.
    + intros [[-> ->]|[_ ?%elem_of_nil]]; done.
  - intros [Hk0 Hd]%NoDup_cons.
    destruct (decide (k0 = k)) as [->|Hne].
    + rewrite !elem_of_cons. split.
      * intros [[= -> ->]|Hin]; [by left|]. right. split; [|by right].
        intros ->. apply Hk0. by apply (list_elem_of_fmap_2 fst) in Hin.
      * intros [[-> ->]|[Hne [[= ? ?]|Hin]]]; [by left|done|by right].
    + rewrite !elem_of_cons, (IH Hd). split.
      * intros [[= -> ->]|[[-> ->]|[? ?]]]; [right|left|right]; auto.
      * intros [[-> ->]|[? [[= -> ->]|?]]]; auto.
Qed.

(** The items after storing a list of pairs one after the other. *)
Lemma foldl_dict_set d (items : list (string * V)) :
  NoDup (map fst d) →
  let out := foldl (λ d kv, dict_set d kv.1 kv.2) d items in
  NoDup (map fst out)
  ∧ (∀ k, k ∈ map fst out ↔ k ∈ map fst d ∨ k ∈ map fst items)
  ∧ (∀ k v, (k, v) ∈ out ↔
       (∃ l1 l2, items = l1 ++ (k, v) :: l2 ∧ k ∉ map fst l2)
       ∨ ((k ∉ map fst items) ∧ (k, v) ∈ d)).
Proof.
  revert d. induction items as [|[k0 v0] items IH]; intros d Hd; cbn zeta.
  - simpl. split; [done|]. split.
    + intros k. split; [by left|]. by intros [?|?%elem_of_nil].
    + intros k v. split.
      * intros ?. right. split; [by intros ?%elem_of_nil|done].
      * intros [(l1 & l2 & Heq & _)|[_ ?]]; [by destruct l1|done].
  - simpl. destruct (IH (dict_set d k0 v0) (dict_set_NoDup d k0 v0 Hd))
      as (Hnd & Hkeys & Helem).
    split; [done|]. split.
    + intros k. rewrite Hkeys, dict_set_keys, elem_of_cons.
      destruct (decide (k0 ∈ map fst d)).
      * split; [intros [?|?]; auto|]. intros [?|[->|?]]; auto.
      * rewrite elem_of_app, list_elem_of_singleton. tauto.
    + intros k v. rewrite Helem, (dict_set_elem d k0 v0 k v Hd), elem_of_cons.
      split.
      * intros [(l1 & l2 & -> & Hl2)|[Hk [[-> ->]|[Hne Hin]]]].
        -- left. by exists ((k0, v0) :: l1), l2.
        -- left. by exists [], items.
        -- right. split; [|done]. by intros [?|?].
      * intros [(l1 & l2 & Heq & Hl2)|[Hk Hin]].
        -- destruct l1 as [|x l1]; simplify_eq/=.
           ++ right. split; [done|]. by left.
           ++ left. by exists l1, l2.
        -- right. split; [tauto|]. right. split; [|done].
           intros ->. tauto.
Qed.
End dict.

(** X10: the roster dictionary [stock_map] has every symbol of the roster
    once, and with each symbol the identifier of the last roster row that
    names it. *)
Theorem stock_map_last_row_wins (stock_df : list (string * string)) :
  NoDup (map fst (to_dict stock_df))
  ∧ (∀ symbol, symbol ∈ map fst (to_dict stock_df) ↔ symbol ∈ map fst stock_df)
  ∧ (∀ symbol isin, (symbol, isin) ∈ to_dict stock_df ↔
       ∃ before after, stock_df = before ++ (symbol, isin) :: after
                       ∧ symbol ∉ map fst after).
Proof.
  destruct (foldl_dict_set [] stock_df (NoDup_nil_2 : NoDup (map fst [])))
    as (Hnd & Hkeys & Helem).
  split; [done|]. split.
  - intros k. rewrite (Hkeys k). split; [|by right].
    by intros [?%elem_of_nil|?].
  - intros k v. rewrite (Helem k v). split; [|by left].
    by intros [?|[_ ?%elem_of_nil]].
Qed.

Example stock_map_example :
  to_dict [("TCS", "OLD"); ("INFY", "INE009A01021"); ("TCS", "INE467B01029")]
  = [("TCS", "INE467B01029"); ("INFY", "INE009A01021")].
Proof. reflexivity. Qed.

(** ** Progress lines and the output file *)

Section collecting.
Context {R Acc : Type} (keep : Acc → string → list R → Acc)
  (dates : list R → list datetime).

(** The loop over the completed futures keeps the frames with rows and
    prints one line per future. *)
Lemma on_completed_fold completed acc out :
  ∃ progress,
    foldl (on_completed keep dates) (acc, out) completed
    = (foldl (λ a f, keep a f.1 f.2) acc (frames_with_rows completed),
       out ++ progress)
    ∧ omap reported progress = map future_symbol completed
    ∧ Forall (λ e, is_output_file e = false) progress.
Proof.
  revert acc out.
  induction completed as [|[symbol result] completed IH]; intros acc out; simpl.
  - exists []. by rewrite app_nil_r.
  - destruct result as [[sym [|r df]]|err];
      (edestruct IH as (progress & -> & Hrep & Hfiles);
       eexists (_ :: progress);
       split; [by rewrite <- app_assoc|];
       split; [by rewrite <- Hrep|by constructor]).
Qed.
End collecting.

Lemma to_dict_nil {V : Type} (items : list (string * V)) :
  to_dict items = [] ↔ items = [].
Proof.
  split; [|by intros ->].
  destruct items as [|[k v] items]; [done|]. intros Hnil.
  destruct (foldl_dict_set [] ((k, v) :: items) (NoDup_nil_2 : NoDup (map fst [])))
    as (_ & Hkeys & _).
  cbn zeta in Hkeys. fold (to_dict ((k, v) :: items)) in Hkeys.
  rewrite Hnil in Hkeys.
  assert (k ∈ map fst (@nil (string * V))) as Hin.
  { apply Hkeys. right. by left. }
  by apply elem_of_nil in Hin.
Qed.

Lemma foldl_snoc_frames {R : Type} (acc : list (list R))
    (frames : list (string * list R)) :
  foldl (λ a f, a ++ [f.2]) acc frames = acc ++ map snd frames.
Proof.
  revert acc. induction frames as [|f frames IH]; intros acc; simpl.
  - by rewrite app_nil_r.
  - by rewrite IH, <- app_assoc.
Qed.

Lemma finish2_shape completed :
  ∃ progress,
    App2.finish completed
    = progress ++ App2.save (map snd (frames_with_rows completed))
    ∧ omap reported progress = map future_symbol completed
    ∧ Forall (λ e, is_output_file e = false) progress.
Proof.
  unfold App2.finish.
  destruct (on_completed_fold (λ acc sym df, acc ++ [df]) (map App2.long_date)
              completed [] []) as (progress & -> & Hrep & Hfiles).
  rewrite (foldl_snoc_frames [] (frames_with_rows completed)).
  by exists progress.
Qed.

Lemma filter_no_files (progress : list event) :
  Forall (λ e, is_output_file e = false) progress →
  List.filter is_output_file progress = [].
Proof.
  induction 1 as [|e progress He _ IH]; simpl; [done|]. by rewrite He.
Qed.

Lemma elem_of_frames_with_rows {R : Type}
    (completed : list (string * py (string * list R))) sym df :
  (sym, df) ∈ frames_with_rows completed →
  df ≠ [] ∧ ∃ symbol, (symbol, Ok (sym, df)) ∈ completed.
Proof.
  unfold frames_with_rows. intros ([symbol result] & Hin & Hsome)%list_elem_of_omap.
  simpl in Hsome. destruct result as [[sym' [|r df']]|err]; simplify_eq.
  split; [done|]. by exists symbol.
Qed.

Lemma frames_with_rows_nil {R : Type}
    (completed : list (string * py (string * list R))) :
  frames_with_rows completed = [] ↔ Forall no_rows completed.
Proof.
  unfold frames_with_rows.
  induction completed as [|[symbol result] completed IH]; [by split|].
  rewrite Forall_cons, <- IH. unfold no_rows at 1. cbn.
  destruct result as [[sym [|r df]]|err]; cbn; split; try done; tauto.
Qed.

(** X11: the loop over the completed futures in [app.py] prints exactly one
    progress line per future, in completion order, about the symbol the
    future returned or, when it raised, the symbol it was submitted for, and
    writes no file; afterwards [final_results] has exactly one entry for
    each symbol that returned a frame with rows, every frame in it has rows,
    and it is empty (so that nothing is saved) exactly when no future
    brought rows. *)
Theorem final_results_one_entry_per_symbol
    (completed : list (string * py (string * list row))) :
  let collected :=
    foldl (on_completed (λ d sym df, dict_set d sym df) (map Date))
      ([], []) completed in
  omap reported collected.2 = map future_symbol completed
  ∧ Forall (λ e, is_output_file e = false) collected.2
  ∧ NoDup (map fst collected.1)
  ∧ (∀ sym, sym ∈ map fst collected.1
            ↔ ∃ symbol r df, (symbol, Ok (sym, r :: df)) ∈ completed)
  ∧ (∀ sym df, (sym, df) ∈ collected.1 →
               df ≠ [] ∧ ∃ symbol, (symbol, Ok (sym, df)) ∈ completed)
  ∧ (collected.1 = [] ↔ Forall no_rows completed).
Proof.
  cbn zeta.
  destruct (on_completed_fold (λ d sym df, dict_set d sym df) (map Date)
              completed [] []) as (progress & -> & Hrep & Hfiles).
  cbn [fst snd app].
  destruct (foldl_dict_set [] (frames_with_rows completed)
              (NoDup_nil_2 : NoDup (map fst []))) as (Hnd & Hkeys & Helem).
  cbn zeta in Hnd, Hkeys, Helem.
  change (foldl (λ a f, dict_set a f.1 f.2) [] (frames_with_rows completed))
    with (to_dict (frames_with_rows completed)).
  fold (to_dict (frames_with_rows completed)) in Hnd, Hkeys, Helem.
  split; [done|]. split; [done|]. split; [done|]. split; [|split].
  - intros sym. rewrite (Hkeys sym). split.
    + intros [?%elem_of_nil|([sym' df] & -> & Hin)%list_elem_of_fmap]; [done|].
      apply elem_of_frames_with_rows in Hin as (Hne & symbol & Hin).
      destruct df as [|r df]; [done|]. by exists symbol, r, df.
    + intros (symbol & r & df & Hin). right.
      apply (list_elem_of_fmap_2 fst _ (sym, r :: df)).
      unfold frames_with_rows. apply list_elem_of_omap.
      by exists (symbol, Ok (sym, r :: df)).
  - intros sym df [(l1 & l2 & Heq & _)|[_ ?%elem_of_nil]]%Helem; [|done].
    apply elem_of_frames_with_rows. rewrite Heq.
    apply elem_of_app. right. by left.
  - by rewrite to_dict_nil, frames_with_rows_nil.
Qed.

(** X12: the end of the main block of [app2.py] prints one progress line
    per completed future in the same way; it writes the CSV once when some
    future returned a frame with rows and not at all otherwise, and the
    table written holds exactly the rows of those frames, in ascending
    order of (symbol, date). *)
Theorem finish2_reports_and_writes_once
    (completed : list (string * py (string * list long_row))) :
  omap reported (App2.finish completed) = map future_symbol completed
  ∧ (∃ table,
       List.filter is_output_file (App2.finish completed)
       = match frames_with_rows completed with
         | [] => []
         | _ :: _ => [ToCsv App2.OUTPUT_FILENAME table]
         end
       ∧ table ≡ₚ concat (map snd (frames_with_rows completed))
       ∧ StronglySorted symbol_date_le
           (map (λ r, (Symbol r, App2.long_date r)) table)).
Proof.
  destruct (finish2_shape completed) as (progress & -> & Hrep & Hfiles).
  split.
  - rewrite omap_app, Hrep. unfold App2.save.
    destruct (map snd _); simpl; by rewrite app_nil_r.
  - exists (App2.merge_all (map snd (frames_with_rows completed))).
    split; [|split].
    + rewrite List.filter_app, (filter_no_files _ Hfiles). unfold App2.save.
      by destruct (frames_with_rows completed) as [|f frames].
    + apply merge_sort_Permutation.
    + apply (StronglySorted_keys _ symbol_date_le), sort_values_sorted; apply _.
Qed.

(** ** The main blocks from the roster to the last line *)

Lemma omap_lookup_seq {A : Type} (pre l : list A) :
  omap (λ i, (pre ++ l) !! i) (seq (length pre) (length l)) = l.
Proof.
  revert pre. induction l as [|x l IH]; intros pre; [done|].
  cbn [length seq omap list_omap].
  replace ((pre ++ x :: l) !! length pre) with (Some x)
    by (by rewrite list_lookup_middle).
  f_equal. specialize (IH (pre ++ [x])).
  rewrite length_app, Nat.add_1_r, <- app_assoc in IH. exact IH.
Qed.

Lemma scheduled_items {A : Type} (l : list A) (order : list nat) :
  order ≡ₚ seq 0 (length l) → omap (λ i, l !! i) order ≡ₚ l.
Proof. intros ->. by rewrite <- (omap_lookup_seq [] l) at 2. Qed.

Lemma run_tasks {R : Type}
    (task : nat → string * string → option (py (string * list R)))
    (enough : nat) (items : list (string * string)) :
  (∀ item, ∃ df, ∀ fuel, (enough ≤ fuel)%nat →
     task fuel item = Some (Ok (item.1, df))) →
  ∃ completed,
    (∀ fuel, (enough ≤ fuel)%nat →
       mapM (λ item, result ← task fuel item; Some (item.1, result)) items
       = Some completed)
    ∧ map future_symbol completed = map fst items.
Proof.
  intros Htask. induction items as [|item items (completed & Hrun & Hsyms)].
  - by exists [].
  - destruct (Htask item) as [df Hdf].
    exists ((item.1, Ok (item.1, df)) :: completed). split.
    + intros fuel Hfuel. simpl. rewrite (Hdf _ Hfuel). simpl.
      by rewrite (Hrun _ Hfuel).
    + simpl. by rewrite Hsyms.
Qed.

Lemma process_single_stock2_returns {Api : Type} {remote : HistoryV3Api Api}
    END_DATE (api : Api) symbol isin :
  ∃ df, ∀ fuel, (horizon_fuel END_DATE ≤ fuel)%nat →
    App2.process_single_stock fuel END_DATE api symbol isin
    = Some (Ok (symbol, df)).
Proof.
  destruct (horizon_finishes api (get_instrument_key isin) END_DATE)
    as (out & log & api' & Hrun).
  exists (App2.process_data symbol out).2. intros fuel Hfuel.
  unfold App2.process_single_stock. rewrite (Hrun _ Hfuel).
  by rewrite <- process_data2_pair.
Qed.

Lemma save2_one_file all_data :
  (length (List.filter is_output_file (App2.save all_data)) ≤ 1)%nat.
Proof. destruct all_data; simpl; lia. Qed.

(** X13: when the futures complete in any order (each submitted task
    once), the main block of [app2.py], for every API client, runs to its
    end, prints exactly one progress line for every symbol of the roster
    dictionary and for no other symbol, and writes at most one CSV file. *)
Theorem main2_reports_each_symbol_once
    {Api : Type} {remote : HistoryV3Api Api}
    (END_DATE : datetime) (stock_df : list (string * string))
    (client : string → Api) (order : list nat) :
  order ≡ₚ seq 0 (length (to_dict stock_df)) →
  ∃ events,
    (∀ fuel, (horizon_fuel END_DATE ≤ fuel)%nat →
       App2.main fuel END_DATE true stock_df client order = Some events)
    ∧ omap reported events ≡ₚ map fst (to_dict stock_df)
    ∧ NoDup (omap reported events)
    ∧ (length (List.filter is_output_file events) ≤ 1)%nat.
Proof.
  intros Horder.
  pose proof (scheduled_items (to_dict stock_df) order Horder) as Hitems.
  set (items := omap (λ i, to_dict stock_df !! i) order) in *.
  assert (NoDup (map fst (to_dict stock_df))) as Hnd.
  { by destruct (foldl_dict_set [] stock_df
                   (NoDup_nil_2 : NoDup (map fst (@nil (string * string)))))
      as (? & _). }
  destruct (run_tasks
              (λ fuel item,
                 App2.process_single_stock fuel END_DATE (client item.1)
                   item.1 item.2)
              (horizon_fuel END_DATE) items) as (completed & Hrun & Hsyms).
  { intros item. apply process_single_stock2_returns. }
  destruct (finish2_shape completed) as (progress & Hfin & Hrep & Hfiles).
  exists ([Stdout MsgStarting;
           Stdout (MsgFetching (length (to_dict stock_df)) MAX_WORKERS);
           Stdout MsgSettings] ++ App2.finish completed).
  assert (omap reported (App2.finish completed) = map fst items) as Hreported.
  { rewrite Hfin, omap_app, Hrep, Hsyms. unfold App2.save.
    destruct (map snd (frames_with_rows completed)); simpl;
      by rewrite app_nil_r. }
  split; [|split; [|split]].
  - intros fuel Hfuel. unfold App2.main; cbn [negb]. fold items.
    by rewrite (Hrun _ Hfuel).
  - rewrite omap_app, Hreported. simpl. by rewrite Hitems.
  - rewrite omap_app, Hreported. simpl. by rewrite Hitems.
  - rewrite List.filter_app, Hfin, List.filter_app, (filter_no_files _ Hfiles).
    simpl. apply save2_one_file.
Qed.

Lemma main2_reports_each_symbol_once_witness :
  [1; 0]%nat ≡ₚ seq 0 (length (to_dict roster_with_repeat))
  ∧ ∃ events,
      (∀ fuel, (horizon_fuel sample_now ≤ fuel)%nat →
         App2.main (remote := boundary_api) fuel sample_now true
           roster_with_repeat (λ _, ()) [1; 0]%nat = Some events)
      ∧ omap reported events ≡ₚ ["TCS"; "INFY"]
      ∧ NoDup (omap reported events)
      ∧ (length (List.filter is_output_file events) ≤ 1)%nat.
Proof.
  assert ([1; 0]%nat ≡ₚ seq 0 (length (to_dict roster_with_repeat))) as Horder.
  { apply Permutation_swap. }
  split; [exact Horder|].
  exact (main2_reports_each_symbol_once (remote := boundary_api)
           sample_now roster_with_repeat (λ _, ()) [1; 0]%nat Horder).
Defined.

(** ** One row per symbol and date in the long table *)

Lemma process_data2_symbol symbol all_candles :
  Forall (λ r, Symbol r = symbol) (App2.process_data symbol all_candles).2.
Proof.
  unfold App2.process_data. destruct all_candles as [|c cs]; [constructor|].
  cbn zeta. cbn [snd]. apply Forall_forall.
  intros r [Hr _]%drop_duplicates_seen_elem.
  rewrite sort_values_Permutation in Hr.
  by apply list_elem_of_fmap in Hr as (c0 & -> & _).
Qed.

Lemma NoDup_process_data2 symbol all_candles :
  NoDup (map App2.long_date (App2.process_data symbol all_candles).2).
Proof.
  unfold App2.process_data. destruct all_candles; [constructor|].
  apply drop_duplicates_seen_NoDup.
Qed.

Lemma NoDup_symbol_date symbol (df : list long_row) :
  Forall (λ r, Symbol r = symbol) df → NoDup (map App2.long_date df) →
  NoDup (map (λ r, (Symbol r, App2.long_date r)) df).
Proof.
  induction df as [|r df IH]; simpl; [constructor|].
  intros [Hr Hdf]%Forall_cons [Hd Hnd]%NoDup_cons.
  constructor; [|by apply IH].
  intros (r' & [= _ Heq] & Hin)%list_elem_of_fmap.
  apply Hd. rewrite Heq. by apply list_elem_of_fmap_2.
Qed.

(** X14: when the symbols are pairwise different, the long table that
    [app2.py] merges from the frames of their batches has at most one row
    for each pair of symbol and date, and every row carries the symbol of
    one of the batches and the date of a candle of that batch. *)
Theorem long_table_unique_keys (inputs : list (string * list raw_candle)) :
  NoDup (map fst inputs) →
  let table :=
    App2.merge_all (map (λ i, (App2.process_data i.1 i.2).2) inputs) in
  NoDup (map (λ r, (Symbol r, App2.long_date r)) table)
  ∧ ∀ r, r ∈ table →
      ∃ symbol batch c, (symbol, batch) ∈ inputs ∧ c ∈ batch
        ∧ Symbol r = symbol ∧ App2.long_date r = raw_wall c.
Proof.
  intros Hnd. cbn zeta. split.
  - unfold App2.merge_all. rewrite sort_values_Permutation.
    induction inputs as [|[symbol batch] inputs IH]; simpl; [constructor|].
    apply NoDup_cons in Hnd as [Hsym Hnd].
    rewrite map_app. apply NoDup_app. split; [|split; [|by apply IH]].
    + apply (NoDup_symbol_date symbol);
        [apply process_data2_symbol|apply NoDup_process_data2].
    + intros [sym d] (r & [= -> ->] & Hr)%list_elem_of_fmap
        (r' & [= Hs Hd] & Hr')%list_elem_of_fmap.
      pose proof (process_data2_symbol symbol batch) as Hall.
      rewrite Forall_forall in Hall. rewrite (Hall _ Hr) in Hs.
      apply Hsym. clear -Hr' Hs.
      induction inputs as [|[s0 b0] inputs IH]; simpl in *;
        [by apply elem_of_nil in Hr'|].
      apply elem_of_app in Hr' as [Hr'|Hr'].
      * apply elem_of_cons. left.
        pose proof (process_data2_symbol s0 b0) as Hall.
        rewrite Forall_forall in Hall. by rewrite Hs, (Hall _ Hr').
      * apply elem_of_cons. right. by apply IH.
  - intros r Hr. unfold App2.merge_all in Hr.
    rewrite sort_values_Permutation in Hr. clear Hnd.
    induction inputs as [|[symbol batch] inputs IH]; simpl in Hr;
      [by apply elem_of_nil in Hr|].
    apply elem_of_app in Hr as [Hr|Hr].
    + exists symbol, batch.
      pose proof (process_data2_symbol symbol batch) as Hall.
      rewrite Forall_forall in Hall.
      assert (App2.long_date r ∈ map raw_wall batch) as Hd.
      { apply (process_data2_dates symbol). by apply list_elem_of_fmap_2. }
      apply list_elem_of_fmap in Hd as (c & Hd & Hc).
      exists c. split; [by left|]. split; [done|]. split; [by apply Hall|done].
    + destruct (IH Hr) as (symbol' & batch' & c & Hin & Hc & Hs & Hd).
      exists symbol', batch', c. split; [by right|done].
Qed.

Lemma long_table_unique_keys_witness :
  NoDup (map fst sample_batches)
  ∧ map (λ r, (Symbol r, strftime_Ymd (App2.long_date r)))
      (App2.merge_all
         (map (λ i, (App2.process_data i.1 i.2).2) sample_batches))
    = [("A", mk_ymd 2021 1 1); ("B", mk_ymd 2021 1 1); ("B", mk_ymd 2021 1 2)]
  ∧ NoDup (map (λ r, (Symbol r, App2.long_date r))
             (App2.merge_all
                (map (λ i, (App2.process_data i.1 i.2).2) sample_batches))).
Proof.
  assert (NoDup (map fst sample_batches)) as Hnd.
  { apply (bool_decide_unpack _). by vm_compute. }
  split; [exact Hnd|]. split; [by vm_compute|].
  exact (proj1 (long_table_unique_keys sample_batches Hnd)).
Defined.
